(** * ArXiv Paper Monitor: the fetch-merge cycle and its control surface

    A shallow embedding of [config.py], [storage.py] and the request
    handlers of [main.py].  The remote listing service
    ([ArXivClient.fetch_papers]) and the wall clock ([datetime.utcnow])
    are external: they are taken as parameters acting on an abstract
    outside world that is threaded through every handler. *)

From Stdlib Require Import ZArith Ascii String List Sorted Permutation Lia.
From stdpp Require Import base decidable option list sets gmap strings pretty.

#[local] Set Warnings "-clear-no-such-hyp".

Local Open Scope string_scope.
Local Open Scope Z_scope.
Local Open Scope list_scope.

(** ** config.py: the three pydantic models *)

(** [datetime] values are abstracted to a position on the time line. *)
Abbreviation datetime := Z.

Module Paper.
Record t := mk {
  id : string;
  title : string;
  abstract : string;
  authors : list string;
  categories : list string;
  published : datetime;
  updated : datetime;
  arxiv_url : string;
  pdf_url : string;
  fetched_at : datetime;
  is_new : bool
}.

(** The assignment [paper.is_new = b]. *)
Definition set_is_new (b : bool) (p : t) : t :=
  mk (id p) (title p) (abstract p) (authors p) (categories p)
     (published p) (updated p) (arxiv_url p) (pdf_url p) (fetched_at p) b.
End Paper.

Module CategoryConfig.
Record t := mk {
  category : string;
  enabled : bool;
  max_results : Z
}.

(** [CategoryConfig(category=c, enabled=True)]: [max_results] takes the
    field default of the model. *)
Definition default_max_results : Z := 50.
Definition make (c : string) (e : bool) : t := mk c e default_max_results.
End CategoryConfig.

Module FetchStatus.
Record t := mk {
  last_fetch : option datetime;
  papers_found : Z;
  new_papers : Z;
  status : string;
  message : string
}.
End FetchStatus.

(** ** Python dictionaries keyed by strings

    A [dict] keeps its keys in insertion order, and [sorted] is stable, so
    the order is observable through [get_papers]; the dictionary is an
    association list with the two operations the handlers use. *)

Section Dict.
Context {V : Type}.

Definition dict := list (string * V).

(** [d.get(k)] *)
Fixpoint dict_get (k : string) (d : dict) : option V :=
  match d with
  | [] => None
  | (k', v) :: d' => if decide (k' = k) then Some v else dict_get k d'
  end.

(** [d[k] = v]: an existing key keeps its position, a fresh key goes last. *)
Fixpoint dict_set (k : string) (v : V) (d : dict) : dict :=
  match d with
  | [] => [(k, v)]
  | (k', v') :: d' =>
      if decide (k' = k) then (k, v) :: d' else (k', v') :: dict_set k v d'
  end.

(** [d.keys()], [d.values()] *)
Definition dict_keys (d : dict) : list string := fst <$> d.
Definition dict_values (d : dict) : list V := snd <$> d.
End Dict.

Arguments dict : clear implicits.

(** ** storage.py: four JSON files under [base_dir]

    A file that does not exist is [None].  The JSON encoding itself is not
    modelled: a file holds the value that [json.load] followed by the
    pydantic constructors rebuilds from it. *)

Record DataStorage := mkStorage {
  papers_file : option (dict Paper.t);
  seen_file : option (list string);
  config_file : option (list CategoryConfig.t);
  status_file : option FetchStatus.t
}.

(** [DataStorage()] over a fresh directory. *)
Definition empty_storage : DataStorage := mkStorage None None None None.

Definition load_papers (s : DataStorage) : dict Paper.t :=
  match papers_file s with
  | Some data => data
  | None => []
  end.

Definition save_papers (papers : dict Paper.t) (s : DataStorage) : DataStorage :=
  mkStorage (Some papers) (seen_file s) (config_file s) (status_file s).

Definition load_seen_ids (s : DataStorage) : gset string :=
  match seen_file s with
  | Some data => list_to_set data
  | None => ∅
  end.

(** [list(seen_ids)] comes in an order that Python does not fix;
    [elements] stands for whichever order is written, and nothing below
    depends on it but through [load_seen_ids]. *)
Definition save_seen_ids (seen_ids : gset string) (s : DataStorage) : DataStorage :=
  mkStorage (papers_file s) (Some (elements seen_ids)) (config_file s) (status_file s).

Definition default_config : list CategoryConfig.t :=
  [ CategoryConfig.make "cs.CV" true;
    CategoryConfig.make "cs.LG" true;
    CategoryConfig.make "cs.AI" true ].

Definition load_config (s : DataStorage) : list CategoryConfig.t :=
  match config_file s with
  | Some data => data
  | None => default_config
  end.

Definition save_config (config : list CategoryConfig.t) (s : DataStorage) : DataStorage :=
  mkStorage (papers_file s) (seen_file s) (Some config) (status_file s).

Definition load_status (s : DataStorage) : option FetchStatus.t := status_file s.

Definition save_status (status : FetchStatus.t) (s : DataStorage) : DataStorage :=
  mkStorage (papers_file s) (seen_file s) (config_file s) (Some status).

(** ** Exceptions and the handler monad *)

(** What a handler can raise: some Python exception, known by its
    message, or FastAPI's [HTTPException]. *)
Inductive exn :=
  | Exception (msg : string)
  | HTTPException (status_code : Z) (detail : string).

Inductive outcome (A : Type) :=
  | Return (a : A)
  | Raise (e : exn).
Arguments Return {A} a.
Arguments Raise {A} e.

(** Responses of the handlers that answer with a JSON object. *)
Record FetchResponse := mkFetchResponse {
  resp_status : string;
  resp_papers_fetched : Z;
  resp_new_papers : Z
}.

Record Ack := mkAck {
  ack_status : string;
  ack_message : string
}.

(** ** Python's [sorted(xs, key=..., reverse=True)]

    The sort is stable also when reversed: among equal keys the input
    order is kept.  Insertion from the right gives exactly that order. *)

Section Sorted.
Context {A : Type} (key : A → Z).

Fixpoint insert_reverse (x : A) (l : list A) : list A :=
  match l with
  | [] => [x]
  | y :: l' => if key x <? key y then y :: insert_reverse x l' else x :: l
  end.

Definition sorted_reverse (l : list A) : list A := foldr insert_reverse [] l.

End Sorted.

(** ** main.py *)

Module Main.
Section Monitor.
(** The world outside the process: the arXiv service and the clock. *)
Variable World : Type.
(** [ArXivClient.fetch_papers(category, max_results)]: the papers it
    returns or the exception it raises, and the world after the call. *)
Variable fetch_papers : string → Z → World → (exn + list Paper.t) * World.
(** [datetime.utcnow()] *)
Variable utcnow : World → datetime.
(** [str(e)] of an [HTTPException], which Starlette defines. *)
Variable http_str : Z → string → string.

Definition str (e : exn) : string :=
  match e with
  | Exception msg => msg
  | HTTPException status_code detail => http_str status_code detail
  end.

(** [app.state], as set up by [lifespan], together with the world. *)
Record AppState := mkApp {
  storage : DataStorage;
  auto_fetch_enabled : bool;
  fetch_interval : Z;
  fetch_task : bool;          (* a task handle is held *)
  world : World
}.

Definition with_storage (f : DataStorage → DataStorage) (a : AppState) : AppState :=
  mkApp (f (storage a)) (auto_fetch_enabled a) (fetch_interval a) (fetch_task a) (world a).

(** A handler runs on the application state and returns or raises. *)
Definition M (A : Type) : Type := AppState → outcome A * AppState.

#[local] Instance M_ret : MRet M := λ A (x : A) a, (Return x, a).
#[local] Instance M_bind : MBind M := λ A B (f : A → M B) (m : M A) a,
  match m a with
  | (Return x, a') => f x a'
  | (Raise e, a') => (Raise e, a')
  end.

Definition raise {A} (e : exn) : M A := λ a, (Raise e, a).

(** [try: m  except Exception as e: h e] *)
Definition try_except {A} (m : M A) (h : exn → M A) : M A := λ a,
  match m a with
  | (Return x, a') => (Return x, a')
  | (Raise e, a') => h e a'
  end.

Definition load {A} (f : DataStorage → A) : M A := λ a, (Return (f (storage a)), a).
Definition save (f : DataStorage → DataStorage) : M unit := λ a, (Return tt, with_storage f a).
Definition now : M datetime := λ a, (Return (utcnow (world a)), a).

Definition with_world (w : World) (a : AppState) : AppState :=
  mkApp (storage a) (auto_fetch_enabled a) (fetch_interval a) (fetch_task a) w.

Definition await_fetch_papers (category : string) (max_results : Z) : M (list Paper.t) := λ a,
  let '(r, w) := fetch_papers category max_results (world a) in
  match r with
  | inl e => (Raise e, with_world w a)
  | inr papers => (Return papers, with_world w a)
  end.

(** Lines 24-29 and 142-147: fetch papers for all enabled categories. *)
Fixpoint fetch_enabled (config : list CategoryConfig.t) (all_papers : list Paper.t)
    : M (list Paper.t) :=
  match config with
  | [] => mret all_papers
  | cat_config :: config' =>
      if CategoryConfig.enabled cat_config then
        papers ← await_fetch_papers (CategoryConfig.category cat_config)
                                    (CategoryConfig.max_results cat_config);
        fetch_enabled config' (all_papers ++ papers)
      else fetch_enabled config' all_papers
  end.

(** Lines 21-29 and 139-147: the configuration is read, then fetched. *)
Definition fetch_all : M (list Paper.t) :=
  config ← load load_config;
  fetch_enabled config [].

(** Lines 35-43 and 153-161: the locals of the merge loop and one turn
    of its body. *)
Record merge_state := mkMerge {
  existing_papers : dict Paper.t;
  seen_ids : gset string;
  new_count : Z
}.

Definition merge_paper (m : merge_state) (paper : Paper.t) : merge_state :=
  if decide (Paper.id paper ∉ seen_ids m) then
    mkMerge (dict_set (Paper.id paper) (Paper.set_is_new true paper) (existing_papers m))
            ({[Paper.id paper]} ∪ seen_ids m)
            (new_count m + 1)
  else
    mkMerge (dict_set (Paper.id paper) (Paper.set_is_new false paper) (existing_papers m))
            (seen_ids m)
            (new_count m).

Definition merge_papers (all_papers : list Paper.t) (m : merge_state) : merge_state :=
  foldl merge_paper m all_papers.

Definition success_status (t : datetime) (found new : Z) : FetchStatus.t :=
  FetchStatus.mk (Some t) found new "success"
    ("Fetched " +:+ pretty found +:+ " papers, " +:+ pretty new +:+ " new").

Definition error_status (t : datetime) (e : exn) : FetchStatus.t :=
  FetchStatus.mk (Some t) 0 0 "error" (str e).

(** The body of the [try] block, which [periodic_fetch] (lines 20-56)
    and [fetch_papers_now] (lines 139-174) share word for word; it
    yields [len(all_papers)] and [new_count]. *)
Definition fetch_and_merge : M (Z * Z) :=
  all_papers ← fetch_all;
  seen ← load load_seen_ids;
  existing ← load load_papers;
  let m := merge_papers all_papers (mkMerge existing seen 0) in
  save (save_papers (existing_papers m));;
  save (save_seen_ids (seen_ids m));;
  t ← now;
  let found := Z.of_nat (length all_papers) in
  save (save_status (success_status t found (new_count m)));;
  mret (found, new_count m).

(** One turn of the [while] loop of [periodic_fetch], up to the
    [asyncio.sleep] at which the task is suspended. *)
Definition periodic_fetch_tick : M unit :=
  try_except
    (fetch_and_merge;; mret tt)
    (λ e, t ← now; save (save_status (error_status t e))).

(** The dictionary handed to [periodic_fetch] as [app_state].  Either
    the attributes set on [app.state] are its keys, and it shows their
    current values; or it has none of them as a key, as when the object
    keeps its attributes in a private entry of its own. *)
Inductive state_dict := AttributeDict | PrivateDict.

(** [app_state["auto_fetch_enabled"]], the test of line 18, which stands
    outside the [try]: a missing key is a [KeyError], whose [str] is the
    key in quotes. *)
Definition auto_fetch_flag (app_state : state_dict) : M bool := λ a,
  match app_state with
  | AttributeDict => (Return (auto_fetch_enabled a), a)
  | PrivateDict => (Raise (Exception "'auto_fetch_enabled'"), a)
  end.

(** The loop itself: as long as the flag is set, one more turn. *)
Fixpoint periodic_fetch (app_state : state_dict) (turns : nat) : M unit :=
  match turns with
  | O => mret tt
  | S turns' =>
      enabled ← auto_fetch_flag app_state;
      if enabled : bool then periodic_fetch_tick;; periodic_fetch app_state turns'
      else mret tt
  end.

(** [app.state.__dict__], which lines 82 and 224 hand to the loop.  What
    it holds is decided by Starlette's [State], outside this repository. *)
Variable app_state_dict : state_dict.

(** GET /api/papers *)
Definition get_papers : M (list Paper.t) :=
  papers ← load load_papers;
  mret (sorted_reverse Paper.updated (dict_values papers)).

(** POST /api/fetch *)
Definition fetch_papers_now : M FetchResponse :=
  try_except
    ('(found, new) ← fetch_and_merge;
     mret (mkFetchResponse "success" found new))
    (λ e, raise (HTTPException 500 (str e))).

(** GET /api/status *)
Definition get_status : M FetchStatus.t :=
  status ← load load_status;
  match status with
  | None => mret (FetchStatus.mk None 0 0 "no_data" "No fetches performed yet")
  | Some status => mret status
  end.

(** POST /api/mark-all-seen; the loop runs over [papers.items()]. *)
Definition mark_seen (papers : dict Paper.t) (seen : gset string)
    : dict Paper.t * gset string :=
  (prod_map (λ k : string, k) (Paper.set_is_new false) <$> papers,
   foldl (λ s item, {[fst item]} ∪ s) seen papers).

Definition mark_all_seen : M Ack :=
  papers ← load load_papers;
  seen ← load load_seen_ids;
  let '(papers', seen') := mark_seen papers seen in
  save (save_papers papers');;
  save (save_seen_ids seen');;
  mret (mkAck "success" "All papers marked as seen").

(** POST /api/toggle-auto-fetch *)
Definition toggle_auto_fetch : M bool := λ a,
  let enabled := negb (auto_fetch_enabled a) in
  let task := if enabled && negb (fetch_task a) then true else fetch_task a in
  (Return enabled, mkApp (storage a) enabled (fetch_interval a) task (world a)).

(** GET and POST /api/config *)
Definition get_config : M (list CategoryConfig.t) := load load_config.

Definition update_config (config : list CategoryConfig.t) : M Ack :=
  save (save_config config);;
  mret (mkAck "success" "Configuration updated").

(** POST /api/clear *)
Definition cleared_status : FetchStatus.t :=
  FetchStatus.mk None 0 0 "cleared" "All data cleared".

Definition clear_all_data : M Ack :=
  save (save_papers []);;
  save (save_seen_ids ∅);;
  save (save_status cleared_status);;
  mret (mkAck "success" "All data cleared").

(** What steps 3-6 of a cycle leave in storage, for the candidates
    [all_papers] read at time [t]: the locals after the merge loop, and
    the three files written from them. *)
Definition merged (all_papers : list Paper.t) (s : DataStorage) : merge_state :=
  merge_papers all_papers (mkMerge (load_papers s) (load_seen_ids s) 0).

Definition committed (all_papers : list Paper.t) (t : datetime) (s : DataStorage)
    : DataStorage :=
  let m := merged all_papers s in
  save_status (success_status t (Z.of_nat (length all_papers)) (new_count m))
    (save_seen_ids (seen_ids m) (save_papers (existing_papers m) s)).

(** The two entry points of a cycle, and the state one leaves behind. *)
Inductive trigger := Scheduled | Manual.

Definition after_cycle (t : trigger) (a : AppState) : AppState :=
  match t with
  | Scheduled => snd (periodic_fetch_tick a)
  | Manual => snd (fetch_papers_now a)
  end.

(** Everything that acts on the application: the routes, and the
    background task, started as lines 82 and 224 start it, running some
    turns of its loop. *)
Inductive request :=
  | GetPapers
  | FetchPapersNow
  | GetStatus
  | MarkAllSeen
  | ToggleAutoFetch
  | GetConfig
  | UpdateConfig (config : list CategoryConfig.t)
  | ClearAllData
  | PeriodicFetch (turns : nat).

Definition handle (r : request) (a : AppState) : AppState :=
  match r with
  | GetPapers => snd (get_papers a)
  | FetchPapersNow => snd (fetch_papers_now a)
  | GetStatus => snd (get_status a)
  | MarkAllSeen => snd (mark_all_seen a)
  | ToggleAutoFetch => snd (toggle_auto_fetch a)
  | GetConfig => snd (get_config a)
  | UpdateConfig config => snd (update_config config a)
  | ClearAllData => snd (clear_all_data a)
  | PeriodicFetch turns => snd (periodic_fetch app_state_dict turns a)
  end.

(** Some requests, one after the other. *)
Definition handle_all (rs : list request) (a : AppState) : AppState :=
  foldl (λ a r, handle r a) a rs.

End Monitor.

Arguments mkApp {World}.
Arguments storage {World}.
Arguments auto_fetch_enabled {World}.
Arguments fetch_interval {World}.
Arguments fetch_task {World}.
Arguments world {World}.
Arguments with_storage {World}.
Arguments with_world {World}.
End Main.

Import Main.

(** ** Concrete worlds used to run the handlers

    The world is the list of requests the service has received so far;
    the clock reads a fixed instant. *)

Module Scenario.
Definition World := list (string * Z).

Definition clock (w : World) : datetime := 1700000000.
Definition http_str (status_code : Z) (detail : string) : string :=
  pretty status_code +:+ ": " +:+ detail.

Definition paper (id title : string) (updated : datetime) : Paper.t :=
  Paper.mk id title "" [] [] updated updated
           ("https://arxiv.org/abs/" +:+ id)
           ("https://arxiv.org/pdf/" +:+ id +:+ ".pdf") 1700000000 true.

(** Starlette's [State] keeps the attributes in a private entry, so its
    [__dict__] has none of them as a key. *)
Definition starlette : state_dict := PrivateDict.

(** The application right after [lifespan] started it on an empty
    directory. *)
Definition fresh : AppState World := mkApp empty_storage true 3600 true [].

(** One paper listed in every category. *)
Definition cross_listed (category : string) (max_results : Z) (w : World)
    : (exn + list Paper.t) * World :=
  (inr [paper "2401.00001v1" "A cross-listed paper" 5], w ++ [(category, max_results)]).

(** The service is down for cs.LG and answers for the other categories. *)
Definition lg_down (category : string) (max_results : Z) (w : World)
    : (exn + list Paper.t) * World :=
  (if decide (category = "cs.LG")
   then inl (HTTPException 503 "ArXiv API error: 503")
   else inr [paper ("id-" +:+ category) category 5],
   w ++ [(category, max_results)]).

(** Two papers per category; the title tells the request number, so a
    later cycle sees the same identifiers under new titles. *)
Definition retitled_papers (category : string) (n : nat) : list Paper.t :=
  [ paper (category +:+ "/1") ("first, request " +:+ pretty n) 7;
    paper (category +:+ "/2") ("second, request " +:+ pretty n) 9 ].

Definition retitled (category : string) (max_results : Z) (w : World)
    : (exn + list Paper.t) * World :=
  (inr (retitled_papers category (length w)), w ++ [(category, max_results)]).

(** A started application whose configuration is cs.CV alone, with
    [max_results] 2. *)
Definition only_cv : AppState World :=
  with_storage (save_config [CategoryConfig.mk "cs.CV" true 2]) fresh.
End Scenario.

(** ** Invariants of the stored data

    What [main.py] relies on without checking: a record is filed under
    its own identifier, once, and an identifier that has a record has
    been seen. *)

(** Two records that agree on every field but [is_new]. *)
Definition same_but_is_new (q p : Paper.t) : Prop :=
  Paper.id q = Paper.id p ∧ Paper.title q = Paper.title p ∧
  Paper.abstract q = Paper.abstract p ∧ Paper.authors q = Paper.authors p ∧
  Paper.categories q = Paper.categories p ∧ Paper.published q = Paper.published p ∧
  Paper.updated q = Paper.updated p ∧ Paper.arxiv_url q = Paper.arxiv_url p ∧
  Paper.pdf_url q = Paper.pdf_url p ∧ Paper.fetched_at q = Paper.fetched_at p.

Definition papers_wf (papers : dict Paper.t) : Prop :=
  NoDup (dict_keys papers) ∧ Forall (λ item, Paper.id (snd item) = fst item) papers.

Definition stored_ids_seen (s : DataStorage) : Prop :=
  ∀ k, k ∈ dict_keys (load_papers s) → k ∈ load_seen_ids s.

(** What [mark_all_seen] leaves in storage. *)
Definition marked (s : DataStorage) : DataStorage :=
  save_seen_ids (load_seen_ids s ∪ list_to_set (dict_keys (load_papers s)))
    (save_papers (prod_map (λ k : string, k) (Paper.set_is_new false) <$> load_papers s) s).

(** ** arxiv_cli.py: the text helpers of [ArXivClient]

    A Python [str] is a sequence of characters.  Which characters are
    white space is decided by the interpreter ([\s] and [str.strip]
    consult the same table), so the table is a parameter. *)

Module ArxivCli.
Section CleanText.
Context {char : Type}.
Variable isspace : char → bool.
(** The character U+0020. *)
Variable space : char.

(** [re.sub(r"\s+", " ", text)]: every maximal run of white space is
    replaced by one space; [in_run] tells that a run is being read. *)
Fixpoint sub_spaces (in_run : bool) (text : list char) : list char :=
  match text with
  | [] => []
  | c :: text' =>
      if isspace c then
        if in_run then sub_spaces true text' else space :: sub_spaces true text'
      else c :: sub_spaces false text'
  end.

(** [str.strip()], from the left and from the right. *)
Fixpoint lstrip (text : list char) : list char :=
  match text with
  | [] => []
  | c :: text' => if isspace c then lstrip text' else text
  end.

Definition rstrip (text : list char) : list char := reverse (lstrip (reverse text)).

Definition strip (text : list char) : list char := rstrip (lstrip text).

(** [ArXivClient.clean_text]; an element without text gives [None]. *)
Definition clean_text (text : option (list char)) : list char :=
  match text with
  | None => []
  | Some [] => []
  | Some text => strip (sub_spaces false text)
  end.
End CleanText.

(** [s.split(sep)] for a separator that is not empty: the pieces between
    the occurrences of [sep], found from left to right without overlap.
    [skip] counts the characters of a found separator still to pass,
    [piece] holds the current piece backwards. *)

Section Split.
Context {char : Type} `{EqDecision char}.

Fixpoint starts_with (sep s : list char) : bool :=
  match sep, s with
  | [], _ => true
  | _ :: _, [] => false
  | x :: sep', c :: s' => bool_decide (x = c) && starts_with sep' s'
  end.

(** [sep in s] *)
Fixpoint occurs (sep s : list char) : bool :=
  starts_with sep s ||
  match s with
  | [] => false
  | _ :: s' => occurs sep s'
  end.

Fixpoint split_from (sep : list char) (skip : nat) (piece s : list char)
    : list (list char) :=
  match s with
  | [] => [reverse piece]
  | c :: s' =>
      match skip with
      | S skip' => split_from sep skip' piece s'
      | O =>
          if starts_with sep s
          then reverse piece :: split_from sep (pred (length sep)) [] s'
          else split_from sep 0 (c :: piece) s'
      end
  end.

Definition split (sep s : list char) : list (list char) := split_from sep 0 [] s.

(** [s.split(sep)[-1]] *)
Definition last_piece (sep s : list char) : list char := default [] (last (split sep s)).
End Split.

(** Lines 57-58 and 91-92 of [fetch_papers]: the identifier taken from
    the text of the entry's [atom:id], and the two addresses made of it. *)
Definition paper_id (id_text : string) : string :=
  string_of_list_ascii
    (last_piece (list_ascii_of_string "/abs/") (list_ascii_of_string id_text)).

Definition arxiv_url (paper_id : string) : string := "https://arxiv.org/abs/" +:+ paper_id.
Definition pdf_url (paper_id : string) : string :=
  "https://arxiv.org/pdf/" +:+ paper_id +:+ ".pdf".

(** [sep in s] on strings. *)
Definition contains (sep s : string) : bool :=
  occurs (list_ascii_of_string sep) (list_ascii_of_string s).
End ArxivCli.

Import ArxivCli.

(** A concrete table for the characters below 256: the white space of
    CPython among them. *)
Module TextScenario.
Definition isspace (c : ascii) : bool :=
  let n := N_of_ascii c in
  ((9 <=? n) && (n <=? 13) || (28 <=? n) && (n <=? 32) || (n =? 133) || (n =? 160))%N.

Definition chars (s : string) : list ascii := list_ascii_of_string s.
End TextScenario.

(** ** Facts about dictionaries *)

Section DictFacts.
Context {V : Type}.
Implicit Types (d : dict V) (k : string) (v : V).

Lemma dict_get_set_eq k v d : dict_get k (dict_set k v d) = Some v.
Proof.
  induction d as [|[k' v'] d IH]; simpl.
  - by rewrite decide_True.
  - destruct (decide (k' = k)) as [->|Hne]; simpl.
    + by rewrite decide_True.
    + by rewrite decide_False.
Qed.

Lemma dict_get_set_ne k k' v d :
  k ≠ k' → dict_get k' (dict_set k v d) = dict_get k' d.
Proof.
  intros Hne. induction d as [|[k0 v0] d IH]; simpl.
  - by rewrite decide_False.
  - destruct (decide (k0 = k)) as [->|Hk]; simpl.
    + by rewrite !decide_False.
    + by rewrite IH.
Qed.

Lemma dict_get_is_Some k d : is_Some (dict_get k d) ↔ k ∈ dict_keys d.
Proof.
  unfold dict_keys. induction d as [|[k' v'] d IH]; simpl.
  - split; [by intros [? ?] | by intros ?%elem_of_nil].
  - rewrite elem_of_cons. destruct (decide (k' = k)) as [->|Hne].
    + split; eauto.
    + rewrite IH. split; [by right | by intros [?|?]].
Qed.

Lemma dict_keys_set k v d :
  dict_keys (dict_set k v d) =
    if decide (k ∈ dict_keys d) then dict_keys d else dict_keys d ++ [k].
Proof.
  unfold dict_keys. induction d as [|[k' v'] d IH]; csimpl; [done |].
  destruct (decide (k' = k)) as [->|Hne]; csimpl.
  - rewrite decide_True; [done | apply elem_of_cons; by left].
  - rewrite IH. destruct (decide (k ∈ d.*1)) as [Hin|Hnin].
    + rewrite decide_True; [done | apply elem_of_cons; by right].
    + rewrite decide_False; [done |].
      rewrite elem_of_cons. by intros [?|?].
Qed.

Lemma dict_keys_set_mono k k' v d :
  k' ∈ dict_keys d → k' ∈ dict_keys (dict_set k v d).
Proof.
  rewrite dict_keys_set. case_decide; [done |].
  rewrite elem_of_app. by left.
Qed.

(** Keys stay unique, as in a Python dictionary. *)
Lemma dict_set_NoDup k v d : NoDup (dict_keys d) → NoDup (dict_keys (dict_set k v d)).
Proof.
  intros Hd. rewrite dict_keys_set. case_decide as Hk; [done |].
  apply NoDup_app. split_and!; [done | | apply NoDup_singleton].
  intros x Hx ->%list_elem_of_singleton. done.
Qed.
End DictFacts.

(** ** Facts about the merge loop *)

Lemma size_difference_fresh (x : string) (L X : gset string) :
  x ∉ X → size (({[x]} ∪ L) ∖ X) = S (size (L ∖ ({[x]} ∪ X))).
Proof.
  intros Hx.
  assert (({[x]} ∪ L) ∖ X = {[x]} ∪ L ∖ ({[x]} ∪ X)) as ->.
  { apply set_eq. intros y. destruct (decide (y = x)) as [->|]; set_solver. }
  rewrite size_union by set_solver. by rewrite size_singleton.
Qed.

Section MergeFacts.
Implicit Types (m : merge_state) (l : list Paper.t) (p : Paper.t).

Lemma merge_papers_cons p l m :
  merge_papers (p :: l) m = merge_papers l (merge_paper m p).
Proof. done. Qed.

Lemma merge_papers_app l1 l2 m :
  merge_papers (l1 ++ l2) m = merge_papers l2 (merge_papers l1 m).
Proof. apply foldl_app. Qed.

Lemma merge_paper_seen m p :
  seen_ids (merge_paper m p) = {[Paper.id p]} ∪ seen_ids m.
Proof.
  unfold merge_paper. case_decide as Hp; simpl; [done |]. set_solver.
Qed.

(** The seen-set after the loop: what it was, and every candidate. *)
Lemma merge_papers_seen l m :
  seen_ids (merge_papers l m) = seen_ids m ∪ list_to_set (Paper.id <$> l).
Proof.
  revert m. induction l as [|p l IH]; intros m.
  - simpl. set_solver.
  - rewrite merge_papers_cons, IH, merge_paper_seen, fmap_cons, list_to_set_cons.
    set_solver.
Qed.

(** The counter after the loop: one more for each distinct identifier
    that the seen-set did not hold. *)
Lemma merge_papers_count l m :
  new_count (merge_papers l m) =
    new_count m + Z.of_nat (size (list_to_set (Paper.id <$> l) ∖ seen_ids m)).
Proof.
  revert m. induction l as [|p l IH]; intros m.
  - simpl. rewrite difference_disjoint_L, size_empty by set_solver. simpl. lia.
  - rewrite merge_papers_cons, IH, merge_paper_seen, fmap_cons, list_to_set_cons.
    unfold merge_paper. case_decide as Hp; simpl.
    + rewrite size_difference_fresh by done. lia.
    + f_equal. f_equal. f_equal. set_solver.
Qed.

Lemma merge_paper_get_ne m p k :
  Paper.id p ≠ k →
  dict_get k (existing_papers (merge_paper m p)) = dict_get k (existing_papers m).
Proof.
  intros Hne. unfold merge_paper. case_decide; simpl; by rewrite dict_get_set_ne.
Qed.

(** A record whose identifier is not among the candidates is left alone. *)
Lemma merge_papers_get_other l m k :
  k ∉ Paper.id <$> l →
  dict_get k (existing_papers (merge_papers l m)) = dict_get k (existing_papers m).
Proof.
  revert m. induction l as [|p l IH]; intros m Hk; [done |].
  rewrite fmap_cons in Hk. apply not_elem_of_cons in Hk as [Hne Hk].
  rewrite merge_papers_cons, IH, merge_paper_get_ne; done.
Qed.

Lemma merge_paper_get_eq m p :
  dict_get (Paper.id p) (existing_papers (merge_paper m p)) =
    Some (Paper.set_is_new (bool_decide (Paper.id p ∉ seen_ids m)) p).
Proof.
  unfold merge_paper. case_decide as Hp; simpl; rewrite dict_get_set_eq.
  - by rewrite bool_decide_eq_true_2.
  - rewrite bool_decide_eq_false_2; [done | by intros Hn; apply Hn].
Qed.

(** What the loop stores under an identifier is its last candidate, with
    the flag telling whether the seen-set held the identifier when that
    candidate's turn came. *)
Lemma merge_papers_get_last l1 p l2 m :
  Paper.id p ∉ Paper.id <$> l2 →
  dict_get (Paper.id p) (existing_papers (merge_papers (l1 ++ p :: l2) m)) =
    Some (Paper.set_is_new
            (bool_decide (Paper.id p ∉ seen_ids m ∪ list_to_set (Paper.id <$> l1))) p).
Proof.
  intros Hl2.
  rewrite merge_papers_app, merge_papers_cons, merge_papers_get_other by done.
  by rewrite merge_paper_get_eq, merge_papers_seen.
Qed.

Lemma merge_paper_keys m p k :
  k ∈ dict_keys (existing_papers m) → k ∈ dict_keys (existing_papers (merge_paper m p)).
Proof.
  intros Hk. unfold merge_paper. case_decide; simpl; by apply dict_keys_set_mono.
Qed.

Lemma merge_papers_keys l m k :
  k ∈ dict_keys (existing_papers m) → k ∈ dict_keys (existing_papers (merge_papers l m)).
Proof.
  revert m. induction l as [|p l IH]; intros m Hk; [done |].
  rewrite merge_papers_cons. by apply IH, merge_paper_keys.
Qed.

Lemma merge_papers_NoDup l m :
  NoDup (dict_keys (existing_papers m)) →
  NoDup (dict_keys (existing_papers (merge_papers l m))).
Proof.
  revert m. induction l as [|p l IH]; intros m Hm; [done |].
  rewrite merge_papers_cons. apply IH.
  unfold merge_paper. case_decide; simpl; by apply dict_set_NoDup.
Qed.
End MergeFacts.

(** ** Facts about the sort *)

Section SortedFacts.
Context {A : Type} (key : A → Z).
Implicit Types (x : A) (l : list A).







End SortedFacts.

(** ** Facts about the handlers *)

Section CycleFacts.
Context {World : Type}.
Variable fetch_papers : string → Z → World → (exn + list Paper.t) * World.
Variable utcnow : World → datetime.
Variable http_str : Z → string → string.
Variable app_state_dict : state_dict.

Implicit Types (a : AppState World) (l : list Paper.t) (e : exn).

Local Abbreviation fetch_enabled := (Main.fetch_enabled World fetch_papers).
Local Abbreviation fetch_all := (Main.fetch_all World fetch_papers).
Local Abbreviation fetch_and_merge := (Main.fetch_and_merge World fetch_papers utcnow).
Local Abbreviation periodic_fetch_tick := (Main.periodic_fetch_tick World fetch_papers utcnow http_str).
Local Abbreviation periodic_fetch := (Main.periodic_fetch World fetch_papers utcnow http_str).
Local Abbreviation fetch_papers_now := (Main.fetch_papers_now World fetch_papers utcnow http_str).
Local Abbreviation after_cycle := (Main.after_cycle World fetch_papers utcnow http_str).
Local Abbreviation handle := (Main.handle World fetch_papers utcnow http_str app_state_dict).
Local Abbreviation handle_all :=
  (Main.handle_all World fetch_papers utcnow http_str app_state_dict).
Local Abbreviation str := (Main.str http_str).
Local Abbreviation error_status := (Main.error_status http_str).

Local Ltac run :=
  unfold get_papers, get_status, mark_all_seen, get_config, update_config,
    clear_all_data, toggle_auto_fetch;
  unfold mbind, mret, M_bind, M_ret, load, save, now, raise, try_except; simpl.

Lemma with_world_with_world (w w' : World) a :
  with_world w' (with_world w a) = with_world w' a.
Proof. done. Qed.

Lemma storage_with_world (w : World) a : storage (with_world w a) = storage a.
Proof. done. Qed.

Lemma storage_with_storage (f : DataStorage → DataStorage) a :
  storage (with_storage f a) = f (storage a).
Proof. done. Qed.

(** Fetching touches nothing but the outside world. *)
Lemma fetch_enabled_with_world config l a :
  ∃ w, snd (fetch_enabled config l a) = with_world w a.
Proof.
  revert l a. induction config as [|c config IH]; intros l a; simpl.
  - exists (world a). by destruct a.
  - destruct (CategoryConfig.enabled c); [| apply IH].
    unfold mbind, M_bind, await_fetch_papers.
    destruct (fetch_papers _ _ _) as [[e|papers] w]; simpl.
    + by exists w.
    + destruct (IH (l ++ papers) (with_world w a)) as [w' Hw']. by exists w'.
Qed.

Lemma fetch_all_storage a r a' : fetch_all a = (r, a') → storage a' = storage a.
Proof.
  unfold Main.fetch_all. run. intros H.
  destruct (fetch_enabled_with_world (load_config (storage a)) [] a) as [w Hw].
  rewrite H in Hw. simpl in Hw. by subst a'.
Qed.

Lemma fetch_and_merge_Return a l a' :
  fetch_all a = (Return l, a') →
  fetch_and_merge a =
    (Return (Z.of_nat (length l), new_count (merged l (storage a))),
     with_storage (committed l (utcnow (world a'))) a').
Proof.
  intros H. pose proof (fetch_all_storage _ _ _ H) as Hs.
  unfold Main.fetch_and_merge. run. rewrite H. simpl.
  unfold merged, committed, with_storage. simpl. by rewrite Hs.
Qed.

Lemma fetch_and_merge_Raise a e a' :
  fetch_all a = (Raise e, a') → fetch_and_merge a = (Raise e, a').
Proof. intros H. unfold Main.fetch_and_merge. run. by rewrite H. Qed.

Lemma fetch_papers_now_Return a l a' :
  fetch_all a = (Return l, a') →
  fetch_papers_now a =
    (Return (mkFetchResponse "success" (Z.of_nat (length l))
                             (new_count (merged l (storage a)))),
     with_storage (committed l (utcnow (world a'))) a').
Proof.
  intros H. unfold Main.fetch_papers_now. run.
  by rewrite (fetch_and_merge_Return _ _ _ H).
Qed.

Lemma fetch_papers_now_Raise a e a' :
  fetch_all a = (Raise e, a') →
  fetch_papers_now a = (Raise (HTTPException 500 (str e)), a').
Proof.
  intros H. unfold Main.fetch_papers_now. run.
  by rewrite (fetch_and_merge_Raise _ _ _ H).
Qed.

Lemma periodic_fetch_tick_Return a l a' :
  fetch_all a = (Return l, a') →
  periodic_fetch_tick a =
    (Return tt, with_storage (committed l (utcnow (world a'))) a').
Proof.
  intros H. unfold Main.periodic_fetch_tick. run.
  by rewrite (fetch_and_merge_Return _ _ _ H).
Qed.

Lemma periodic_fetch_tick_Raise a e a' :
  fetch_all a = (Raise e, a') →
  periodic_fetch_tick a =
    (Return tt, with_storage (save_status (error_status (utcnow (world a')) e)) a').
Proof.
  intros H. unfold Main.periodic_fetch_tick. run.
  by rewrite (fetch_and_merge_Raise _ _ _ H).
Qed.

Lemma after_cycle_Return t a l a' :
  fetch_all a = (Return l, a') →
  after_cycle t a = with_storage (committed l (utcnow (world a'))) a'.
Proof.
  intros H. destruct t; simpl.
  - by rewrite (periodic_fetch_tick_Return _ _ _ H).
  - by rewrite (fetch_papers_now_Return _ _ _ H).
Qed.

(** Reading back what was saved. *)
Lemma load_seen_ids_save_seen_ids (seen : gset string) (s : DataStorage) :
  load_seen_ids (save_seen_ids seen s) = seen.
Proof. unfold load_seen_ids. simpl. apply list_to_set_elements_L. Qed.

Lemma load_seen_ids_save_papers (papers : dict Paper.t) (s : DataStorage) :
  load_seen_ids (save_papers papers s) = load_seen_ids s.
Proof. done. Qed.

Lemma load_seen_ids_save_status (status : FetchStatus.t) (s : DataStorage) :
  load_seen_ids (save_status status s) = load_seen_ids s.
Proof. done. Qed.

Lemma mark_all_seen_storage a :
  storage (snd (mark_all_seen World a)) =
    let '(papers, seen) := mark_seen (load_papers (storage a)) (load_seen_ids (storage a)) in
    save_seen_ids seen (save_papers papers (storage a)).
Proof. done. Qed.

(** What a committed cycle leaves in each file. *)
Lemma load_seen_ids_committed l t (s : DataStorage) :
  load_seen_ids (committed l t s) = load_seen_ids s ∪ list_to_set (Paper.id <$> l).
Proof.
  unfold committed. cbv zeta.
  rewrite load_seen_ids_save_status, load_seen_ids_save_seen_ids.
  unfold merged. by rewrite merge_papers_seen.
Qed.

Lemma load_papers_committed l t (s : DataStorage) :
  load_papers (committed l t s) = existing_papers (merged l s).
Proof. done. Qed.

Lemma load_status_committed l t (s : DataStorage) :
  load_status (committed l t s) =
    Some (success_status t (Z.of_nat (length l)) (new_count (merged l s))).
Proof. done. Qed.

Lemma load_config_committed l t (s : DataStorage) :
  load_config (committed l t s) = load_config s.
Proof. done. Qed.

Lemma new_count_merged l (s : DataStorage) :
  new_count (merged l s) =
    Z.of_nat (size (list_to_set (Paper.id <$> l) ∖ load_seen_ids s)).
Proof. unfold merged. by rewrite merge_papers_count. Qed.

(** A cycle, however it ends, only adds to the seen-set. *)
Lemma after_cycle_seen_ids t a :
  load_seen_ids (storage a) ⊆ load_seen_ids (storage (after_cycle t a)).
Proof.
  destruct (fetch_all a) as [[l|e] a'] eqn:H;
    pose proof (fetch_all_storage _ _ _ H) as Hs.
  - rewrite (after_cycle_Return _ _ _ _ H), storage_with_storage.
    rewrite load_seen_ids_committed, Hs. set_solver.
  - destruct t; simpl.
    + rewrite (periodic_fetch_tick_Raise _ _ _ H). simpl. by rewrite Hs.
    + rewrite (fetch_papers_now_Raise _ _ _ H). simpl. by rewrite Hs.
Qed.

Lemma periodic_fetch_tick_returns a : fst (periodic_fetch_tick a) = Return tt.
Proof.
  destruct (fetch_all a) as [[l|e] a'] eqn:H.
  - by rewrite (periodic_fetch_tick_Return _ _ _ H).
  - by rewrite (periodic_fetch_tick_Raise _ _ _ H).
Qed.

Lemma periodic_fetch_seen_ids app_state turns a :
  load_seen_ids (storage a) ⊆
    load_seen_ids (storage (snd (periodic_fetch app_state turns a))).
Proof.
  revert a. induction turns as [|turns IH]; intros a; simpl; [done |].
  unfold mbind, M_bind, auto_fetch_flag. destruct app_state; [| done].
  destruct (auto_fetch_enabled a); [| done].
  pose proof (periodic_fetch_tick_returns a) as Hr.
  pose proof (after_cycle_seen_ids Scheduled a) as Hs. simpl in Hs.
  destruct (periodic_fetch_tick a) as [r a1]. simpl in Hr, Hs. subst r.
  etrans; [exact Hs | apply IH].
Qed.

Lemma mark_seen_seen_ids (papers : dict Paper.t) (seen : gset string) :
  snd (mark_seen papers seen) = seen ∪ list_to_set (dict_keys papers).
Proof.
  unfold mark_seen, dict_keys. simpl. revert seen.
  induction papers as [|[k p] papers IH]; intros seen; simpl.
  - set_solver.
  - rewrite IH. set_solver.
Qed.

Lemma fetch_enabled_app config1 config2 l a :
  fetch_enabled (config1 ++ config2) l a =
    match fetch_enabled config1 l a with
    | (Return l', a') => fetch_enabled config2 l' a'
    | (Raise e, a') => (Raise e, a')
    end.
Proof.
  revert l a. induction config1 as [|c config1 IH]; intros l a; simpl; [done |].
  destruct (CategoryConfig.enabled c); [| apply IH].
  unfold mbind, M_bind. destruct (await_fetch_papers _ _ _ _ _) as [[papers|e] a']; [apply IH | done].
Qed.

(** ** The claims that hold for every fetcher and every state *)

(** When an identifier occurs once among the candidates, its stored
    flag tells whether the seen-set lacked it before the merge. *)
Lemma merged_get_once l1 p l2 (s : DataStorage) :
  Paper.id p ∉ Paper.id <$> l1 → Paper.id p ∉ Paper.id <$> l2 →
  dict_get (Paper.id p) (existing_papers (merged (l1 ++ p :: l2) s)) =
    Some (Paper.set_is_new (bool_decide (Paper.id p ∉ load_seen_ids s)) p).
Proof.
  intros H1 H2. unfold merged. rewrite merge_papers_get_last by done. simpl.
  do 2 f_equal; apply bool_decide_ext; set_solver.
Qed.

(** C2, as amended: a category whose fetch fails ends the cycle at that
    call.  The world is left as the failing call left it, so no later
    category is requested; the records and the seen-set are not
    written; the manual trigger raises HTTP 500 and the scheduled turn
    stores the error status. *)
Theorem fetch_failure_aborts_cycle a config1 c config2 l a1 e w :
  load_config (storage a) = config1 ++ c :: config2 →
  fetch_enabled config1 [] a = (Return l, a1) →
  CategoryConfig.enabled c = true →
  fetch_papers (CategoryConfig.category c) (CategoryConfig.max_results c) (world a1)
    = (inl e, w) →
  fetch_papers_now a = (Raise (HTTPException 500 (str e)), with_world w a) ∧
  periodic_fetch_tick a =
    (Return tt, with_storage (save_status (error_status (utcnow w) e)) (with_world w a)) ∧
  ∀ t, world (after_cycle t a) = w ∧
       load_papers (storage (after_cycle t a)) = load_papers (storage a) ∧
       load_seen_ids (storage (after_cycle t a)) = load_seen_ids (storage a).
Proof.
  intros Hconfig H1 Hc Hfail.
  assert (fetch_all a = (Raise e, with_world w a)) as H.
  { unfold Main.fetch_all. unfold mbind, M_bind, load. rewrite Hconfig.
    rewrite fetch_enabled_app, H1. simpl. rewrite Hc.
    unfold mbind, M_bind, await_fetch_papers. rewrite Hfail.
    destruct (fetch_enabled_with_world config1 [] a) as [w1 Hw1].
    rewrite H1 in Hw1. simpl in Hw1. by subst a1. }
  rewrite (fetch_papers_now_Raise _ _ _ H), (periodic_fetch_tick_Raise _ _ _ H).
  split_and!; [done | done |].
  intros [|]; simpl.
  - by rewrite (periodic_fetch_tick_Raise _ _ _ H).
  - by rewrite (fetch_papers_now_Raise _ _ _ H).
Qed.

(** C3, as amended: when the body of a cycle raises [e], the scheduled
    turn returns normally and leaves the status "error" with the
    message [str e]; the manual trigger raises HTTP 500 with that
    message as detail and writes nothing. *)
Theorem cycle_failure_handling a e a' :
  fetch_and_merge a = (Raise e, a') →
  fst (periodic_fetch_tick a) = Return tt ∧
  load_status (storage (after_cycle Scheduled a)) =
    Some (FetchStatus.mk (Some (utcnow (world a'))) 0 0 "error" (str e)) ∧
  fst (fetch_papers_now a) = Raise (HTTPException 500 (str e)) ∧
  storage (after_cycle Manual a) = storage a.
Proof.
  intros H.
  assert (fetch_all a = (Raise e, a')) as Hf.
  { destruct (fetch_all a) as [[l|e0] a0] eqn:Hf.
    - rewrite (fetch_and_merge_Return _ _ _ Hf) in H. discriminate.
    - rewrite (fetch_and_merge_Raise _ _ _ Hf) in H. congruence. }
  simpl.
  rewrite (periodic_fetch_tick_Raise _ _ _ Hf), (fetch_papers_now_Raise _ _ _ Hf).
  split_and!; try done. simpl. apply (fetch_all_storage _ _ _ Hf).
Qed.

(** C4: when a cycle has succeeded and the next one fetches candidates
    with the same identifiers, whichever way each is triggered, the
    second cycle leaves the seen-set as it was, stores a status that
    reads "success" with [new_papers] 0, and the manual trigger answers
    "success" with [new_papers] 0. *)
Theorem second_cycle_idempotent t1 t2 a l1 a1 l2 a2 :
  fetch_all a = (Return l1, a1) →
  fetch_all (after_cycle t1 a) = (Return l2, a2) →
  Paper.id <$> l2 = Paper.id <$> l1 →
  load_seen_ids (storage (after_cycle t2 (after_cycle t1 a))) =
    load_seen_ids (storage (after_cycle t1 a)) ∧
  (∃ st, load_status (storage (after_cycle t2 (after_cycle t1 a))) = Some st ∧
         FetchStatus.status st = "success" ∧
         FetchStatus.new_papers st = 0 ∧
         FetchStatus.papers_found st = Z.of_nat (length l2) ∧
         FetchStatus.last_fetch st = Some (utcnow (world a2))) ∧
  fst (fetch_papers_now (after_cycle t1 a)) =
    Return (mkFetchResponse "success" (Z.of_nat (length l2)) 0).
Proof.
  intros H1 H2 Hids.
  rewrite (after_cycle_Return t2 _ _ _ H2), (fetch_papers_now_Return _ _ _ H2).
  pose proof (fetch_all_storage _ _ _ H2) as Hs2.
  rewrite storage_with_storage.
  rewrite load_seen_ids_committed, load_status_committed, Hs2, new_count_merged.
  assert (list_to_set (Paper.id <$> l2) ⊆ load_seen_ids (storage (after_cycle t1 a)))
    as Hseen.
  { rewrite (after_cycle_Return t1 _ _ _ H1), storage_with_storage.
    rewrite load_seen_ids_committed, Hids. set_solver. }
  assert (list_to_set (Paper.id <$> l2) ∖ load_seen_ids (storage (after_cycle t1 a))
          = (∅ : gset string)) as -> by set_solver.
  rewrite size_empty. split_and!; [set_solver | | done].
  eexists. split; [reflexivity |]. by split_and!.
Qed.

(** C5: with no configuration file, [load_config] gives cs.CV, cs.LG
    and cs.AI in this order, each enabled with [max_results] 50. *)
Theorem load_config_default (s : DataStorage) :
  config_file s = None →
  load_config s =
    [ CategoryConfig.mk "cs.CV" true 50;
      CategoryConfig.mk "cs.LG" true 50;
      CategoryConfig.mk "cs.AI" true 50 ].
Proof. intros H. unfold load_config. by rewrite H. Qed.

(** C6: after [clear_all_data] the record mapping is empty and
    [get_papers] answers with the empty list, the seen-set is empty, the
    status reads "cleared", and the merge of a following cycle counts
    every distinct candidate identifier as new. *)
Theorem clear_all_data_resets a :
  let a' := snd (clear_all_data World a) in
  load_papers (storage a') = [] ∧
  fst (get_papers World a') = Return [] ∧
  load_seen_ids (storage a') = ∅ ∧
  fst (get_status World a') = Return (FetchStatus.mk None 0 0 "cleared" "All data cleared") ∧
  ∀ l, seen_ids (merged l (storage a')) = list_to_set (Paper.id <$> l) ∧
       new_count (merged l (storage a')) =
         Z.of_nat (size (list_to_set (C := gset string) (Paper.id <$> l))).
Proof.
  run. split_and!; try done.
  intros l. rewrite new_count_merged. unfold merged.
  rewrite merge_papers_seen. simpl.
  unfold load_seen_ids. simpl. rewrite elements_empty. simpl.
  split; [set_solver |]. do 2 f_equal. set_solver.
Qed.

Lemma set_is_new_fields (b : bool) (p : Paper.t) :
  same_but_is_new (Paper.set_is_new b p) p ∧ Paper.is_new (Paper.set_is_new b p) = b.
Proof. split; [by repeat split | done]. Qed.

Lemma handle_keeps_seen_ids (r : request) a :
  r = ClearAllData ∨
  load_seen_ids (storage a) ⊆ load_seen_ids (storage (handle r a)).
Proof.
  destruct r; cbn [Main.handle]; try (by left); right; try done.
  - apply (after_cycle_seen_ids Manual).
  - run. by destruct (load_status (storage a)).
  - rewrite mark_all_seen_storage.
    pose proof (mark_seen_seen_ids (load_papers (storage a)) (load_seen_ids (storage a))) as H.
    destruct (mark_seen _ _) as [papers' seen']. simpl in H. subst seen'.
    rewrite load_seen_ids_save_seen_ids. set_solver.
  - apply periodic_fetch_seen_ids.
Qed.

Lemma handle_all_keeps_seen_ids (rs : list request) a :
  ClearAllData ∈ rs ∨
  load_seen_ids (storage a) ⊆ load_seen_ids (storage (handle_all rs a)).
Proof.
  revert a. induction rs as [|r rs IH]; intros a; [by right |].
  destruct (handle_keeps_seen_ids r a) as [->|Hr]; [left; apply list_elem_of_here |].
  destruct (IH (handle r a)) as [Hclear|Hrs]; [left; by apply list_elem_of_further |].
  right. etrans; [exact Hr | exact Hrs].
Qed.

(** C7: an identifier is fetched in one cycle and again in a later one,
    after any requests in between.  The record stored after the later
    cycle has the later candidate's title and every other field of it
    but [is_new]; its [is_new] is true exactly when the seen-set lacked
    the identifier as that candidate was merged (neither the stored
    seen-set nor an earlier candidate of the cycle had it), whatever
    the fields; so it is false unless [clear_all_data] came in between. *)
Theorem refetch_overwrites t1 t2 a l1 a1 p1 (rs : list request) k1 p2 k2 a2 :
  fetch_all a = (Return l1, a1) →
  p1 ∈ l1 →
  fetch_all (handle_all rs (after_cycle t1 a)) = (Return (k1 ++ p2 :: k2), a2) →
  Paper.id p2 = Paper.id p1 →
  Paper.id p2 ∉ Paper.id <$> k2 →
  ∃ q, dict_get (Paper.id p2)
         (load_papers (storage (after_cycle t2 (handle_all rs (after_cycle t1 a))))) = Some q ∧
    Paper.title q = Paper.title p2 ∧
    same_but_is_new q p2 ∧
    (Paper.is_new q = true ↔
       (Paper.id p2 ∉ load_seen_ids (storage (handle_all rs (after_cycle t1 a)))) ∧
       (Paper.id p2 ∉ Paper.id <$> k1)) ∧
    (ClearAllData ∈ rs ∨ Paper.is_new q = false).
Proof.
  intros H1 Hp1 H2 Hid Hk2.
  assert (Paper.id p2 ∈ load_seen_ids (storage (after_cycle t1 a))) as Hseen.
  { rewrite (after_cycle_Return t1 _ _ _ H1), storage_with_storage.
    rewrite load_seen_ids_committed, elem_of_union, elem_of_list_to_set.
    right. rewrite Hid. by apply list_elem_of_fmap_2. }
  rewrite (after_cycle_Return t2 _ _ _ H2), storage_with_storage.
  rewrite load_papers_committed, (fetch_all_storage _ _ _ H2).
  unfold merged. rewrite merge_papers_get_last by done. cbn [seen_ids].
  eexists. split; [reflexivity |].
  destruct (set_is_new_fields
              (bool_decide (Paper.id p2 ∉
                 load_seen_ids (storage (handle_all rs (after_cycle t1 a)))
                 ∪ list_to_set (Paper.id <$> k1))) p2) as [Hsame ->].
  split_and!; [apply Hsame | exact Hsame | |].
  - rewrite bool_decide_eq_true, not_elem_of_union, elem_of_list_to_set. done.
  - destruct (handle_all_keeps_seen_ids rs (after_cycle t1 a)) as [Hclear|Hgrow];
      [by left | right].
    apply bool_decide_eq_false. intros Hn. apply Hn.
    apply elem_of_union. left. by apply Hgrow.
Qed.



(** C9: every request other than [clear_all_data], and any number of
    turns of the background task, leaves a seen-set that includes the
    one before. *)
Theorem seen_ids_grow (r : request) a :
  r ≠ ClearAllData →
  load_seen_ids (storage a) ⊆ load_seen_ids (storage (handle r a)).
Proof.
  intros Hr. destruct r; cbn [Main.handle]; try done.
  - apply (after_cycle_seen_ids Manual).
  - run. by destruct (load_status (storage a)).
  - rewrite mark_all_seen_storage.
    pose proof (mark_seen_seen_ids (load_papers (storage a)) (load_seen_ids (storage a))) as H.
    destruct (mark_seen _ _) as [papers' seen']. simpl in H. subst seen'.
    rewrite load_seen_ids_save_seen_ids. set_solver.
  - apply periodic_fetch_seen_ids.
Qed.

(** C10: a cycle whose fetches succeed keeps every stored identifier,
    and leaves the record of an identifier that is not among its
    candidates exactly as it was. *)
Theorem cycle_keeps_other_records t a l a1 :
  fetch_all a = (Return l, a1) →
  (∀ k, k ∈ dict_keys (load_papers (storage a)) →
        k ∈ dict_keys (load_papers (storage (after_cycle t a)))) ∧
  (∀ k, k ∉ Paper.id <$> l →
        dict_get k (load_papers (storage (after_cycle t a))) =
          dict_get k (load_papers (storage a))).
Proof.
  intros H. rewrite (after_cycle_Return t _ _ _ H), storage_with_storage.
  rewrite load_papers_committed, (fetch_all_storage _ _ _ H). unfold merged. split.
  - intros k Hk. by apply merge_papers_keys.
  - intros k Hk. by rewrite merge_papers_get_other.
Qed.
End CycleFacts.

(** ** The handlers run on concrete worlds *)

Section Runs.
Import Scenario.

Local Abbreviation fetch_papers_now f := (Main.fetch_papers_now World f clock http_str).
Local Abbreviation periodic_fetch_tick f := (Main.periodic_fetch_tick World f clock http_str).
Local Abbreviation after_cycle f := (Main.after_cycle World f clock http_str).
Local Abbreviation handle f := (Main.handle World f clock http_str starlette).
Local Abbreviation handle_all f := (Main.handle_all World f clock http_str starlette).
Local Abbreviation fetch_all f := (Main.fetch_all World f).
Local Abbreviation fetch_enabled f := (Main.fetch_enabled World f).
Local Abbreviation fetch_and_merge f := (Main.fetch_and_merge World f clock).

(** C1: a new paper listed in two enabled categories.  It is absent
    from the seen-set before the merge and the cycle counts it as new,
    yet the record is stored with [is_new] false: the second copy finds
    the identifier that the first one has just added. *)
Theorem cross_listed_paper_stored_as_seen :
  ("2401.00001v1" ∉ load_seen_ids (storage fresh)) ∧
  fst (fetch_papers_now cross_listed fresh) = Return (mkFetchResponse "success" 3 1) ∧
  ∀ t, (Paper.is_new <$>
          dict_get "2401.00001v1" (load_papers (storage (after_cycle cross_listed t fresh))))
       = Some false.
Proof.
  split_and!.
  - apply not_elem_of_empty.
  - vm_compute. reflexivity.
  - intros [|]; vm_compute; reflexivity.
Qed.

(** C2 fails: cs.LG cannot be fetched; cs.AI is then never requested
    and the paper already fetched for cs.CV is not stored. *)
Lemma lg_down_stops_the_fetches :
  fst (lg_down "cs.CV" 50 []) = inr [paper "id-cs.CV" "cs.CV" 5] ∧
  fst (lg_down "cs.AI" 50 []) = inr [paper "id-cs.AI" "cs.AI" 5] ∧
  ∀ t, world (after_cycle lg_down t fresh) = [("cs.CV", 50); ("cs.LG", 50)] ∧
       (("cs.AI", 50) ∉ world (after_cycle lg_down t fresh)) ∧
       load_papers (storage (after_cycle lg_down t fresh)) = [].
Proof.
  split_and!; [done | done |].
  intros t.
  assert (world (after_cycle lg_down t fresh) = [("cs.CV", 50); ("cs.LG", 50)]) as Hw
    by (destruct t; vm_compute; reflexivity).
  rewrite Hw. split_and!; [done | | by destruct t].
  rewrite !elem_of_cons, elem_of_nil. intros [?|[?|[]]]; discriminate.
Qed.

Lemma fetch_failure_aborts_cycle_witness :
  fetch_papers_now lg_down fresh =
    (Raise (HTTPException 500 "503: ArXiv API error: 503"),
     with_world [("cs.CV", 50); ("cs.LG", 50)] fresh) ∧
  periodic_fetch_tick lg_down fresh =
    (Return tt,
     with_storage
       (save_status (error_status http_str 1700000000
                                  (HTTPException 503 "ArXiv API error: 503")))
       (with_world [("cs.CV", 50); ("cs.LG", 50)] fresh)) ∧
  ∀ t, world (after_cycle lg_down t fresh) = [("cs.CV", 50); ("cs.LG", 50)] ∧
       load_papers (storage (after_cycle lg_down t fresh)) = load_papers (storage fresh) ∧
       load_seen_ids (storage (after_cycle lg_down t fresh)) = load_seen_ids (storage fresh).
Proof.
  apply (fetch_failure_aborts_cycle lg_down clock http_str fresh
           [CategoryConfig.make "cs.CV" true] (CategoryConfig.make "cs.LG" true)
           [CategoryConfig.make "cs.AI" true]
           [paper "id-cs.CV" "cs.CV" 5] (with_world [("cs.CV", 50)] fresh)
           (HTTPException 503 "ArXiv API error: 503") [("cs.CV", 50); ("cs.LG", 50)]).
  - reflexivity.
  - reflexivity.
  - reflexivity.
  - reflexivity.
Defined.

(** C3 fails for the manual trigger: the failure is raised to the
    caller and no status is written. *)
Lemma manual_failure_is_raised :
  fst (fetch_papers_now lg_down fresh) =
    Raise (HTTPException 500 "503: ArXiv API error: 503") ∧
  load_status (storage (after_cycle lg_down Manual fresh)) = None.
Proof. split; reflexivity. Qed.

Lemma cycle_failure_handling_witness :
  fst (periodic_fetch_tick lg_down fresh) = Return tt ∧
  load_status (storage (after_cycle lg_down Scheduled fresh)) =
    Some (FetchStatus.mk (Some 1700000000) 0 0 "error" "503: ArXiv API error: 503") ∧
  fst (fetch_papers_now lg_down fresh) =
    Raise (HTTPException 500 "503: ArXiv API error: 503") ∧
  storage (after_cycle lg_down Manual fresh) = storage fresh.
Proof.
  apply (cycle_failure_handling lg_down clock http_str fresh
           (HTTPException 503 "ArXiv API error: 503")
           (with_world [("cs.CV", 50); ("cs.LG", 50)] fresh)).
  reflexivity.
Defined.

Lemma second_cycle_idempotent_witness :
  load_seen_ids (storage (after_cycle retitled Scheduled (after_cycle retitled Manual only_cv)))
    = load_seen_ids (storage (after_cycle retitled Manual only_cv)) ∧
  (∃ st, load_status
           (storage (after_cycle retitled Scheduled (after_cycle retitled Manual only_cv)))
         = Some st ∧
         FetchStatus.status st = "success" ∧
         FetchStatus.new_papers st = 0 ∧
         FetchStatus.papers_found st = 2 ∧
         FetchStatus.last_fetch st = Some 1700000000) ∧
  fst (fetch_papers_now retitled (after_cycle retitled Manual only_cv))
    = Return (mkFetchResponse "success" 2 0).
Proof.
  apply (second_cycle_idempotent retitled clock http_str Manual Scheduled only_cv
           (retitled_papers "cs.CV" 0) (with_world [("cs.CV", 2)] only_cv)
           (retitled_papers "cs.CV" 1)
           (with_world [("cs.CV", 2); ("cs.CV", 2)] (after_cycle retitled Manual only_cv))).
  - reflexivity.
  - vm_compute. reflexivity.
  - reflexivity.
Defined.

Lemma load_config_default_witness :
  config_file empty_storage = None ∧
  load_config empty_storage =
    [ CategoryConfig.mk "cs.CV" true 50;
      CategoryConfig.mk "cs.LG" true 50;
      CategoryConfig.mk "cs.AI" true 50 ].
Proof. split; [reflexivity | apply load_config_default; reflexivity]. Defined.

Lemma refetch_overwrites_witness :
  ∃ q, dict_get "cs.CV/1"
         (load_papers (storage (after_cycle retitled Scheduled
            (handle_all retitled [MarkAllSeen] (after_cycle retitled Manual only_cv)))))
       = Some q ∧
    Paper.title q = "first, request 1" ∧
    same_but_is_new q (paper "cs.CV/1" "first, request 1" 7) ∧
    (Paper.is_new q = true ↔
       ("cs.CV/1" ∉ load_seen_ids (storage
          (handle_all retitled [MarkAllSeen] (after_cycle retitled Manual only_cv)))) ∧
       ("cs.CV/1" ∉ Paper.id <$> [])) ∧
    (ClearAllData ∈ [MarkAllSeen] ∨ Paper.is_new q = false).
Proof.
  apply (refetch_overwrites retitled clock http_str starlette Manual Scheduled only_cv
           (retitled_papers "cs.CV" 0) (with_world [("cs.CV", 2)] only_cv)
           (paper "cs.CV/1" "first, request 0" 7) [MarkAllSeen]
           [] (paper "cs.CV/1" "first, request 1" 7) [paper "cs.CV/2" "second, request 1" 9]
           (with_world [("cs.CV", 2); ("cs.CV", 2)]
              (handle_all retitled [MarkAllSeen] (after_cycle retitled Manual only_cv)))).
  - reflexivity.
  - apply list_elem_of_here.
  - vm_compute. reflexivity.
  - reflexivity.
  - apply (bool_decide_unpack _). vm_compute. exact I.
Defined.

Lemma seen_ids_grow_witness :
  MarkAllSeen ≠ ClearAllData ∧
  load_seen_ids (storage (after_cycle retitled Manual only_cv)) ⊆
    load_seen_ids (storage (handle retitled MarkAllSeen (after_cycle retitled Manual only_cv))).
Proof. split; [discriminate | apply seen_ids_grow; discriminate]. Defined.

Lemma cycle_keeps_other_records_witness :
  (∀ k, k ∈ dict_keys (load_papers (storage (after_cycle cross_listed Manual only_cv))) →
        k ∈ dict_keys (load_papers (storage
              (after_cycle retitled Manual (after_cycle cross_listed Manual only_cv))))) ∧
  (∀ k, k ∉ Paper.id <$> retitled_papers "cs.CV" 1 →
        dict_get k (load_papers (storage
              (after_cycle retitled Manual (after_cycle cross_listed Manual only_cv)))) =
          dict_get k (load_papers (storage (after_cycle cross_listed Manual only_cv)))).
Proof.
  apply (cycle_keeps_other_records retitled clock http_str Manual
           (after_cycle cross_listed Manual only_cv) (retitled_papers "cs.CV" 1)
           (with_world [("cs.CV", 2); ("cs.CV", 2)] (after_cycle cross_listed Manual only_cv))).
  vm_compute. reflexivity.
Defined.
End Runs.

(** ** More facts about the handlers *)

Section HandlerFacts.
Context {World : Type}.
Variable fetch_papers : string → Z → World → (exn + list Paper.t) * World.
Variable utcnow : World → datetime.
Variable http_str : Z → string → string.
Variable app_state_dict : state_dict.

Implicit Types (a : AppState World) (l : list Paper.t) (e : exn).

Local Abbreviation fetch_enabled := (Main.fetch_enabled World fetch_papers).
Local Abbreviation fetch_all := (Main.fetch_all World fetch_papers).
Local Abbreviation periodic_fetch_tick := (Main.periodic_fetch_tick World fetch_papers utcnow http_str).
Local Abbreviation periodic_fetch := (Main.periodic_fetch World fetch_papers utcnow http_str).
Local Abbreviation fetch_papers_now := (Main.fetch_papers_now World fetch_papers utcnow http_str).
Local Abbreviation after_cycle := (Main.after_cycle World fetch_papers utcnow http_str).
Local Abbreviation handle := (Main.handle World fetch_papers utcnow http_str app_state_dict).
Local Abbreviation handle_all :=
  (Main.handle_all World fetch_papers utcnow http_str app_state_dict).

Local Ltac step :=
  unfold get_papers, get_status, mark_all_seen, get_config, update_config,
    clear_all_data, toggle_auto_fetch;
  unfold mbind, mret, M_bind, M_ret, load, save, now, raise, try_except; simpl.

(** A cycle ends in one of two ways. *)
Lemma after_cycle_cases t a :
  (∃ l a1, fetch_all a = (Return l, a1) ∧
           after_cycle t a = with_storage (committed l (utcnow (world a1))) a1 ∧
           storage a1 = storage a) ∨
  (∃ e a1, fetch_all a = (Raise e, a1) ∧ storage a1 = storage a ∧
           (after_cycle t a = a1 ∨
            after_cycle t a =
              with_storage (save_status (error_status http_str (utcnow (world a1)) e)) a1)).
Proof.
  destruct (fetch_all a) as [[l|e] a1] eqn:H;
    pose proof (fetch_all_storage _ _ _ _ H) as Hs.
  - left. exists l, a1. split_and!; [done | | done].
    by apply after_cycle_Return.
  - right. exists e, a1. split_and!; [done | done |]. destruct t; simpl.
    + right. by rewrite (periodic_fetch_tick_Raise _ _ _ _ _ _ H).
    + left. by rewrite (fetch_papers_now_Raise _ _ _ _ _ _ H).
Qed.

Lemma size_list_to_set_le (ids : list string) :
  (size (list_to_set (C := gset string) ids) ≤ length ids)%nat.
Proof.
  induction ids as [|x ids IH].
  - rewrite list_to_set_nil, size_empty. done.
  - rewrite list_to_set_cons, size_union_alt, size_singleton. simpl.
    assert (size (list_to_set ids ∖ {[x]}) ≤ size (list_to_set (C := gset string) ids))%nat
      by (apply subseteq_size; set_solver).
    lia.
Qed.

(** X2: dedupe.  After a cycle whose fetches succeed the seen-set is the
    one before together with the identifiers of all candidates. *)
Theorem cycle_seen_ids_exact t a l a1 :
  fetch_all a = (Return l, a1) →
  load_seen_ids (storage (after_cycle t a)) =
    load_seen_ids (storage a) ∪ list_to_set (Paper.id <$> l).
Proof.
  intros H. rewrite (after_cycle_Return _ _ _ _ _ _ _ H), storage_with_storage.
  by rewrite load_seen_ids_committed, (fetch_all_storage _ _ _ _ H).
Qed.

(** X3: the counts of a successful cycle.  [papers_found] is the length
    of the candidate list, repetitions included; [new_papers] is the
    number of distinct candidate identifiers that the seen-set lacked;
    so [new_papers] lies between 0 and [papers_found]. *)
Theorem cycle_counts t a l a1 :
  fetch_all a = (Return l, a1) →
  ∃ st, load_status (storage (after_cycle t a)) = Some st ∧
    FetchStatus.status st = "success" ∧
    FetchStatus.papers_found st = Z.of_nat (length l) ∧
    FetchStatus.new_papers st =
      Z.of_nat (size (list_to_set (Paper.id <$> l) ∖ load_seen_ids (storage a))) ∧
    0 ≤ FetchStatus.new_papers st ≤ FetchStatus.papers_found st.
Proof.
  intros H. rewrite (after_cycle_Return _ _ _ _ _ _ _ H), storage_with_storage.
  rewrite load_status_committed, (fetch_all_storage _ _ _ _ H), new_count_merged.
  eexists. split; [reflexivity |]. simpl. split_and!; try done; [lia |].
  apply inj_le.
  etrans; [| etrans; [apply (size_list_to_set_le (Paper.id <$> l)) | by rewrite length_fmap]].
  apply subseteq_size. set_solver.
Qed.

(** X4: the flag a cycle stores.  For the last candidate of an
    identifier, the stored record has every field of that candidate but
    [is_new], and its [is_new] is true exactly when neither the seen-set
    before the cycle nor an earlier candidate of the same cycle had the
    identifier. *)
Theorem cycle_flag_rule t a l1 p l2 a1 :
  fetch_all a = (Return (l1 ++ p :: l2), a1) →
  Paper.id p ∉ Paper.id <$> l2 →
  ∃ q, dict_get (Paper.id p) (load_papers (storage (after_cycle t a))) = Some q ∧
    same_but_is_new q p ∧
    (Paper.is_new q = true ↔
       (Paper.id p ∉ load_seen_ids (storage a)) ∧ (Paper.id p ∉ Paper.id <$> l1)).
Proof.
  intros H Hl2. rewrite (after_cycle_Return _ _ _ _ _ _ _ H), storage_with_storage.
  rewrite load_papers_committed, (fetch_all_storage _ _ _ _ H). unfold merged.
  rewrite merge_papers_get_last by done. cbn [seen_ids].
  eexists. split; [reflexivity |].
  destruct (set_is_new_fields
              (bool_decide (Paper.id p ∉
                 load_seen_ids (storage a) ∪ list_to_set (Paper.id <$> l1))) p)
    as [Hsame ->].
  split; [exact Hsame |].
  by rewrite bool_decide_eq_true, not_elem_of_union, elem_of_list_to_set.
Qed.

Lemma dict_keys_set_elem {V} (k k' : string) (v : V) (d : dict V) :
  k' ∈ dict_keys (dict_set k v d) ↔ k' = k ∨ k' ∈ dict_keys d.
Proof.
  rewrite dict_keys_set. case_decide as Hk.
  - split; [by right | by intros [->|?]].
  - rewrite elem_of_app, list_elem_of_singleton. tauto.
Qed.

Lemma dict_set_Forall {V} (P : string * V → Prop) (k : string) (v : V) (d : dict V) :
  Forall P d → P (k, v) → Forall P (dict_set k v d).
Proof.
  intros Hd Hkv. induction Hd as [|[k' v'] d Hx Hd IH]; simpl.
  - by constructor.
  - case_decide; by constructor.
Qed.

Lemma merge_papers_keys_elem l (m : merge_state) k :
  k ∈ dict_keys (existing_papers (merge_papers l m)) ↔
    k ∈ dict_keys (existing_papers m) ∨ k ∈ Paper.id <$> l.
Proof.
  revert m. induction l as [|p l IH]; intros m.
  - simpl. rewrite elem_of_nil. tauto.
  - rewrite merge_papers_cons, IH, fmap_cons, elem_of_cons.
    unfold merge_paper. case_decide; simpl; rewrite dict_keys_set_elem; tauto.
Qed.

Lemma merge_papers_wf l (m : merge_state) :
  papers_wf (existing_papers m) → papers_wf (existing_papers (merge_papers l m)).
Proof.
  intros [Hnd Hid]. split; [by apply merge_papers_NoDup |].
  revert m Hid Hnd. induction l as [|p l IH]; intros m Hid Hnd; [done |].
  rewrite merge_papers_cons. apply IH.
  - unfold merge_paper. case_decide; simpl; by apply dict_set_Forall.
  - unfold merge_paper. case_decide; simpl; by apply dict_set_NoDup.
Qed.

(** X5: which identifiers have a record after a cycle: those that had one
    before and those of the candidates, and no other. *)
Theorem cycle_stored_ids t a l a1 :
  fetch_all a = (Return l, a1) →
  ∀ k, k ∈ dict_keys (load_papers (storage (after_cycle t a))) ↔
       k ∈ dict_keys (load_papers (storage a)) ∨ k ∈ Paper.id <$> l.
Proof.
  intros H k. rewrite (after_cycle_Return _ _ _ _ _ _ _ H), storage_with_storage.
  rewrite load_papers_committed, (fetch_all_storage _ _ _ _ H). unfold merged.
  by rewrite merge_papers_keys_elem.
Qed.

(** The background loop keeps whatever each of its turns keeps. *)
Lemma periodic_fetch_invariant (P : AppState World → Prop) app_state turns a :
  (∀ a, P a → P (after_cycle Scheduled a)) →
  P a → P (snd (periodic_fetch app_state turns a)).
Proof.
  intros Hstep. revert a. induction turns as [|turns IH]; intros a Ha; simpl; [done |].
  unfold mbind, M_bind, auto_fetch_flag. destruct app_state; [| done].
  destruct (auto_fetch_enabled a); [| done].
  pose proof (periodic_fetch_tick_returns fetch_papers utcnow http_str a) as Hr.
  pose proof (Hstep a Ha) as Ha1. simpl in Ha1.
  destruct (periodic_fetch_tick a) as [r a1]. simpl in Hr, Ha1. subst r.
  by apply IH.
Qed.

(** A property of the stored data that cycles, [mark_all_seen],
    [clear_all_data] and, where it is the request, [update_config] keep
    is kept by every request. *)
Lemma handle_invariant (P : DataStorage → Prop) (r : request) a :
  (∀ t a, P (storage a) → P (storage (after_cycle t a))) →
  (∀ a, P (storage a) → P (storage (snd (mark_all_seen World a)))) →
  (∀ a, P (storage a) → P (storage (snd (clear_all_data World a)))) →
  (∀ config a, r = UpdateConfig config →
               P (storage a) → P (storage (snd (update_config World config a)))) →
  P (storage a) → P (storage (handle r a)).
Proof.
  intros Hcycle Hmark Hclear Hconfig Ha. destruct r; cbn [Main.handle].
  - done.
  - by apply (Hcycle Manual).
  - step. by destruct (load_status (storage a)).
  - by apply Hmark.
  - done.
  - done.
  - by apply Hconfig.
  - by apply Hclear.
  - apply (periodic_fetch_invariant (λ a, P (storage a))); [| done].
    intros a'. apply (Hcycle Scheduled).
Qed.

Lemma after_cycle_storage_cases (P : DataStorage → Prop) t a :
  (∀ l time, P (storage a) → P (committed l time (storage a))) →
  (∀ st, P (storage a) → P (save_status st (storage a))) →
  P (storage a) → P (storage (after_cycle t a)).
Proof.
  intros Hok Herr Ha.
  destruct (after_cycle_cases t a) as [(l & a1 & _ & -> & Hs)|(e & a1 & _ & Hs & [->| ->])].
  - rewrite storage_with_storage, Hs. by apply Hok.
  - by rewrite Hs.
  - rewrite storage_with_storage, Hs. by apply Herr.
Qed.

Lemma mark_seen_papers (papers : dict Paper.t) (seen : gset string) :
  fst (mark_seen papers seen) =
    prod_map (λ k : string, k) (Paper.set_is_new false) <$> papers.
Proof. done. Qed.

Lemma mark_seen_keys (papers : dict Paper.t) (seen : gset string) :
  dict_keys (fst (mark_seen papers seen)) = dict_keys papers.
Proof.
  rewrite mark_seen_papers. unfold dict_keys. rewrite <- list_fmap_compose.
  by apply list_fmap_ext.
Qed.

Lemma mark_seen_get (papers : dict Paper.t) (seen : gset string) k :
  dict_get k (fst (mark_seen papers seen)) =
    Paper.set_is_new false <$> dict_get k papers.
Proof.
  rewrite mark_seen_papers. induction papers as [|[k' p] papers IH]; [done |].
  csimpl. by case_decide.
Qed.

Lemma mark_all_seen_load_papers a :
  load_papers (storage (snd (mark_all_seen World a))) =
    fst (mark_seen (load_papers (storage a)) (load_seen_ids (storage a))).
Proof. done. Qed.

Lemma mark_all_seen_load_seen_ids a :
  load_seen_ids (storage (snd (mark_all_seen World a))) =
    load_seen_ids (storage a) ∪ list_to_set (dict_keys (load_papers (storage a))).
Proof.
  rewrite mark_all_seen_storage.
  pose proof (mark_seen_seen_ids fetch_papers (load_papers (storage a)) (load_seen_ids (storage a))) as H.
  destruct (mark_seen _ _) as [papers' seen']. simpl in H. subst seen'.
  by rewrite load_seen_ids_save_seen_ids.
Qed.

(** X6: records stay filed under their own identifier, each identifier
    once, whatever request is handled. *)
Theorem papers_wf_invariant (r : request) a :
  papers_wf (load_papers (storage a)) →
  papers_wf (load_papers (storage (handle r a))).
Proof.
  apply (handle_invariant (λ s, papers_wf (load_papers s))).
  - intros t a'. apply (after_cycle_storage_cases (λ s, papers_wf (load_papers s))); [| done].
    intros l time Hwf. rewrite load_papers_committed. by apply merge_papers_wf.
  - intros a' [Hnd Hid]. rewrite mark_all_seen_load_papers. split.
    + by rewrite mark_seen_keys.
    + rewrite mark_seen_papers. apply Forall_fmap.
      eapply Forall_impl; [exact Hid |]. by intros [k p].
  - intros a' _. split; [apply NoDup_nil_2 | constructor].
  - done.
Qed.

(** X7: every identifier that has a record is in the seen-set, whatever
    request is handled. *)
Theorem stored_ids_seen_invariant (r : request) a :
  stored_ids_seen (storage a) → stored_ids_seen (storage (handle r a)).
Proof.
  apply (handle_invariant stored_ids_seen).
  - intros t a'. apply (after_cycle_storage_cases stored_ids_seen); [| done].
    intros l time Hseen k. rewrite load_papers_committed, load_seen_ids_committed.
    unfold merged. rewrite merge_papers_keys_elem. simpl.
    rewrite elem_of_union, elem_of_list_to_set. intros [Hk|Hk]; [left; by apply Hseen | by right].
  - intros a' Hseen k. rewrite mark_all_seen_load_papers, mark_seen_keys.
    rewrite mark_all_seen_load_seen_ids, elem_of_union, elem_of_list_to_set. by right.
  - intros a' _ k. by intros ?%elem_of_nil.
  - done.
Qed.

(** X8: a turn of the background task always returns, and always leaves
    a status that reads "success" or "error"; [get_status] then answers
    with that status, not with the "no_data" placeholder. *)
Theorem scheduled_tick_leaves_status a :
  ∃ st, periodic_fetch_tick a = (Return tt, after_cycle Scheduled a) ∧
        load_status (storage (after_cycle Scheduled a)) = Some st ∧
        (FetchStatus.status st = "success" ∨ FetchStatus.status st = "error") ∧
        fst (get_status World (after_cycle Scheduled a)) = Return st.
Proof.
  pose proof (periodic_fetch_tick_returns fetch_papers utcnow http_str a) as Hr.
  assert (periodic_fetch_tick a = (Return tt, after_cycle Scheduled a)) as Htick.
  { simpl. destruct (periodic_fetch_tick a) as [r a1]. simpl in Hr. by subst r. }
  destruct (fetch_all a) as [[l|e] a1] eqn:H.
  - eexists. split; [done |].
    rewrite (after_cycle_Return _ _ _ _ _ _ _ H). step.
    split_and!; [reflexivity | by left | reflexivity].
  - eexists. split; [done |]. simpl.
    rewrite (periodic_fetch_tick_Raise _ _ _ _ _ _ H). step.
    split_and!; [reflexivity | by right | reflexivity].
Qed.


(** X10: switching the schedule off stops the loop.  When scheduling was
    on, [toggle_auto_fetch] answers false, and the loop started on the
    state it leaves makes no turn, whichever dictionary it is handed:
    the state stays as it is; handed the attributes, the loop returns
    at its first test. *)
Theorem toggle_off_stops_loop app_state turns a :
  auto_fetch_enabled a = true →
  fst (toggle_auto_fetch World a) = Return false ∧
  snd (periodic_fetch app_state turns (snd (toggle_auto_fetch World a))) =
    snd (toggle_auto_fetch World a) ∧
  periodic_fetch AttributeDict turns (snd (toggle_auto_fetch World a)) =
    (Return tt, snd (toggle_auto_fetch World a)).
Proof.
  intros Hon. unfold toggle_auto_fetch. rewrite Hon. simpl.
  split_and!; [done | by destruct turns, app_state | by destruct turns].
Qed.

(** X11: [toggle_auto_fetch] answers with the new flag and touches
    neither the stored data nor a task that is held; with a task held,
    toggling twice gives back the state it started from. *)
Theorem toggle_twice a :
  fetch_task a = true →
  fst (toggle_auto_fetch World a) = Return (negb (auto_fetch_enabled a)) ∧
  storage (snd (toggle_auto_fetch World a)) = storage a ∧
  fetch_task (snd (toggle_auto_fetch World a)) = true ∧
  snd (toggle_auto_fetch World (snd (toggle_auto_fetch World a))) = a.
Proof.
  intros Htask. destruct a as [s on interval task w]. simpl in Htask. subst task.
  unfold toggle_auto_fetch. simpl. rewrite !andb_false_r, negb_involutive. done.
Qed.

(** X12: [mark_all_seen] keeps the stored identifiers in their order;
    each record comes out with [is_new] false and every other field as
    it was, and no record appears; the seen-set gains every stored
    identifier. *)
Theorem mark_all_seen_effect a :
  let a' := snd (mark_all_seen World a) in
  dict_keys (load_papers (storage a')) = dict_keys (load_papers (storage a)) ∧
  (∀ k p, dict_get k (load_papers (storage a)) = Some p →
          ∃ q, dict_get k (load_papers (storage a')) = Some q ∧
               Paper.is_new q = false ∧ same_but_is_new q p) ∧
  (∀ k, dict_get k (load_papers (storage a)) = None →
        dict_get k (load_papers (storage a')) = None) ∧
  load_seen_ids (storage a') =
    load_seen_ids (storage a) ∪ list_to_set (dict_keys (load_papers (storage a))).
Proof.
  cbv zeta. rewrite mark_all_seen_load_papers, mark_all_seen_load_seen_ids.
  split_and!; [apply mark_seen_keys | | | done].
  - intros k p Hp. rewrite mark_seen_get, Hp. eexists. split; [reflexivity |].
    destruct (set_is_new_fields false p) as [Hsame Hflag]. by split.
  - intros k Hk. by rewrite mark_seen_get, Hk.
Qed.

Lemma set_is_new_twice (b b' : bool) (p : Paper.t) :
  Paper.set_is_new b (Paper.set_is_new b' p) = Paper.set_is_new b p.
Proof. done. Qed.

Lemma marked_mark_seen (s : DataStorage) :
  marked s =
    save_seen_ids (snd (mark_seen (load_papers s) (load_seen_ids s)))
      (save_papers (fst (mark_seen (load_papers s) (load_seen_ids s))) s).
Proof.
  unfold marked. by rewrite (mark_seen_seen_ids fetch_papers), mark_seen_papers.
Qed.

Lemma mark_all_seen_state a :
  snd (mark_all_seen World a) = with_storage marked a.
Proof. unfold with_storage. by rewrite marked_mark_seen. Qed.

Lemma marked_twice_loads (s : DataStorage) :
  load_papers (marked (marked s)) = load_papers (marked s) ∧
  load_seen_ids (marked (marked s)) = load_seen_ids (marked s) ∧
  load_config (marked (marked s)) = load_config (marked s) ∧
  load_status (marked (marked s)) = load_status (marked s).
Proof.
  assert (∀ s', load_papers (marked s') =
            prod_map (λ k : string, k) (Paper.set_is_new false) <$> load_papers s') as Hp
    by done.
  assert (∀ s', load_seen_ids (marked s') =
            load_seen_ids s' ∪ list_to_set (dict_keys (load_papers s'))) as Hs
    by (intros s'; apply load_seen_ids_save_seen_ids).
  split_and!; [| | done | done].
  - rewrite (Hp (marked s)), Hp, <- list_fmap_compose. by apply list_fmap_ext.
  - rewrite (Hs (marked s)), Hp, Hs.
    rewrite <- mark_seen_papers with (seen := ∅), mark_seen_keys. set_solver.
Qed.

(** X13: [mark_all_seen] a second time changes nothing that can be read
    back: the four loads answer as after the first run, and the
    scheduling state and the outside world are as they were. *)
Theorem mark_all_seen_idempotent a :
  let a1 := snd (mark_all_seen World a) in
  let a2 := snd (mark_all_seen World a1) in
  load_papers (storage a2) = load_papers (storage a1) ∧
  load_seen_ids (storage a2) = load_seen_ids (storage a1) ∧
  load_config (storage a2) = load_config (storage a1) ∧
  load_status (storage a2) = load_status (storage a1) ∧
  auto_fetch_enabled a2 = auto_fetch_enabled a1 ∧
  fetch_task a2 = fetch_task a1 ∧
  world a2 = world a1.
Proof.
  cbv zeta. rewrite !mark_all_seen_state, !storage_with_storage.
  destruct (marked_twice_loads (storage a)) as (Hp & Hs & Hc & Hst).
  by split_and!.
Qed.

(** X14: after [mark_all_seen], a cycle whose candidates all have a stored
    record reports no new paper. *)
Theorem refetch_after_mark_all_seen a l a1 :
  fetch_all (snd (mark_all_seen World a)) = (Return l, a1) →
  (∀ p, p ∈ l → Paper.id p ∈ dict_keys (load_papers (storage a))) →
  fst (fetch_papers_now (snd (mark_all_seen World a))) =
    Return (mkFetchResponse "success" (Z.of_nat (length l)) 0).
Proof.
  intros H Hstored. rewrite (fetch_papers_now_Return _ _ _ _ _ _ H). cbn [fst].
  rewrite new_count_merged, mark_all_seen_load_seen_ids.
  assert (list_to_set (Paper.id <$> l) ∖
            (load_seen_ids (storage a) ∪ list_to_set (dict_keys (load_papers (storage a))))
          = (∅ : gset string)) as ->.
  { apply set_eq. intros k. rewrite elem_of_difference, elem_of_list_to_set,
      list_elem_of_fmap, elem_of_union, elem_of_list_to_set.
    split; [| by intros ?%not_elem_of_empty].
    intros [(p & -> & Hp) Hn]. destruct Hn. right. by apply Hstored. }
  by rewrite size_empty.
Qed.

(** X15: categories that are not enabled are passed over: fetching a
    configuration is fetching its enabled entries. *)
Theorem fetch_enabled_skips_disabled (config : list CategoryConfig.t) l a :
  fetch_enabled config l a =
    fetch_enabled (filter (λ c, CategoryConfig.enabled c = true) config) l a.
Proof.
  revert l a. induction config as [|c config IH]; intros l a; [done |].
  rewrite filter_cons. simpl. destruct (CategoryConfig.enabled c) eqn:Hc.
  - rewrite decide_True by done. simpl. rewrite Hc.
    unfold mbind, M_bind. by destruct (await_fetch_papers _ _ _ _ _) as [[papers|e] a1].
  - rewrite decide_False by done. apply IH.
Qed.

Lemma fetch_enabled_none_enabled (config : list CategoryConfig.t) l a :
  Forall (λ c, CategoryConfig.enabled c = false) config →
  fetch_enabled config l a = (Return l, a).
Proof.
  induction 1 as [|c config Hc _ IH]; simpl; [done |]. by rewrite Hc.
Qed.

(** X16: with no enabled category, the empty configuration included, a
    cycle asks the service nothing, succeeds with both counts 0, and
    leaves the records and the seen-set as they were. *)
Theorem cycle_with_nothing_enabled t a :
  Forall (λ c, CategoryConfig.enabled c = false) (load_config (storage a)) →
  fst (fetch_papers_now a) = Return (mkFetchResponse "success" 0 0) ∧
  world (after_cycle t a) = world a ∧
  load_papers (storage (after_cycle t a)) = load_papers (storage a) ∧
  load_seen_ids (storage (after_cycle t a)) = load_seen_ids (storage a) ∧
  load_status (storage (after_cycle t a)) = Some (success_status (utcnow (world a)) 0 0).
Proof.
  intros Hoff.
  assert (fetch_all a = (Return [], a)) as H.
  { unfold Main.fetch_all, mbind, M_bind, load.
    by apply fetch_enabled_none_enabled. }
  rewrite (fetch_papers_now_Return _ _ _ _ _ _ H), (after_cycle_Return _ _ _ _ _ _ _ H).
  rewrite storage_with_storage, load_seen_ids_committed.
  split_and!; try done. simpl. set_solver.
Qed.

(** X17: apart from [update_config], no request changes the
    configuration: not a cycle, not the background loop, not
    [clear_all_data]. *)
Theorem config_only_changed_by_update (r : request) a :
  (∀ config, r ≠ UpdateConfig config) →
  load_config (storage (handle r a)) = load_config (storage a).
Proof.
  intros Hr.
  apply (handle_invariant (λ s, load_config s = load_config (storage a))); try done.
  - intros t a'. apply (after_cycle_storage_cases (λ s, load_config s = load_config (storage a))).
    + by intros l time.
    + by intros st.
  - intros config a' ->. by destruct (Hr config).
Qed.

Lemma insert_reverse_filter {A} (key : A → Z) (v : Z) (x : A) (l : list A) :
  filter (λ y, key y = v) (insert_reverse key x l) = filter (λ y, key y = v) (x :: l).
Proof.
  induction l as [|y l IH]; [done |]. simpl.
  destruct (key x <? key y) eqn:Hlt; [| done].
  apply Z.ltb_lt in Hlt.
  rewrite (filter_cons _ y), IH, !filter_cons.
  destruct (decide (key x = v)), (decide (key y = v)); try done. lia.
Qed.

Lemma sorted_reverse_filter {A} (key : A → Z) (v : Z) (l : list A) :
  filter (λ y, key y = v) (sorted_reverse key l) = filter (λ y, key y = v) l.
Proof.
  induction l as [|x l IH]; [done |]. simpl.
  by rewrite insert_reverse_filter, !filter_cons, IH.
Qed.

(** X18: [get_papers] is stable: records with the same [updated] come in
    the order in which the mapping holds them, and the state is not
    changed. *)
Theorem get_papers_stable a (time : datetime) :
  ∃ papers, get_papers World a = (Return papers, a) ∧
    filter (λ p, Paper.updated p = time) papers =
      filter (λ p, Paper.updated p = time) (dict_values (load_papers (storage a))).
Proof. eexists. split; [reflexivity |]. apply sorted_reverse_filter. Qed.

End HandlerFacts.

(** ** Facts about [clean_text] *)

Section CleanTextFacts.
Context {char : Type}.
Variable isspace : char → bool.
Variable space : char.

Implicit Types (text : list char) (c d : char) (b : bool).

Local Abbreviation sub_spaces := (ArxivCli.sub_spaces isspace space).
Local Abbreviation lstrip := (ArxivCli.lstrip isspace).
Local Abbreviation rstrip := (ArxivCli.rstrip isspace).
Local Abbreviation strip := (ArxivCli.strip isspace).
Local Abbreviation clean_text := (ArxivCli.clean_text isspace space).

(** No white space next to white space. *)
Local Abbreviation apart := (λ c d : char, isspace c = true → isspace d = false).
(** White space is the space character. *)
Local Abbreviation plain := (λ c : char, isspace c = true → c = space).
Local Abbreviation blank := (λ c : char, isspace c = true).
Local Abbreviation solid := (λ c : char, isspace c = false).

Lemma lstrip_suffix text : ∃ u, text = u ++ lstrip text ∧ Forall blank u.
Proof.
  induction text as [|c text (u & Hu & Hblank)]; simpl.
  - by exists [].
  - destruct (isspace c) eqn:Hc.
    + exists (c :: u). split; [by rewrite <- app_comm_cons, <- Hu | by constructor].
    + by exists [].
Qed.

Lemma lstrip_head text c v : lstrip text = c :: v → isspace c = false.
Proof.
  induction text as [|c' text IH]; simpl; [done |].
  destruct (isspace c') eqn:Hc; [done |]. by intros [= <- _].
Qed.

Lemma lstrip_solid text c v : text = c :: v → isspace c = false → lstrip text = text.
Proof. intros -> Hc. simpl. by rewrite Hc. Qed.

Lemma rstrip_prefix text : ∃ w, text = rstrip text ++ w ∧ Forall blank w.
Proof.
  destruct (lstrip_suffix (reverse text)) as (u & Hu & Hblank).
  exists (reverse u). split; [| by apply Forall_reverse].
  unfold ArxivCli.rstrip. rewrite <- reverse_app, <- Hu. by rewrite reverse_involutive.
Qed.

Lemma rstrip_last text u c : rstrip text = u ++ [c] → isspace c = false.
Proof.
  unfold ArxivCli.rstrip. intros H.
  apply (f_equal reverse) in H. rewrite reverse_involutive, reverse_snoc in H.
  by apply lstrip_head in H.
Qed.

Lemma rstrip_solid text u c : text = u ++ [c] → isspace c = false → rstrip text = text.
Proof.
  intros -> Hc. unfold ArxivCli.rstrip. rewrite reverse_snoc.
  rewrite (lstrip_solid _ c (reverse u)) by done.
  by rewrite <- reverse_snoc, reverse_involutive.
Qed.

Lemma strip_infix text : ∃ u w, text = u ++ strip text ++ w ∧ Forall blank u ∧ Forall blank w.
Proof.
  destruct (lstrip_suffix text) as (u & Hu & Hblank_u).
  destruct (rstrip_prefix (lstrip text)) as (w & Hw & Hblank_w).
  exists u, w. split_and!; [| done | done].
  unfold ArxivCli.strip. by rewrite <- Hw.
Qed.

Lemma strip_head text c v : strip text = c :: v → isspace c = false.
Proof.
  intros H. destruct (rstrip_prefix (lstrip text)) as (w & Hw & _).
  unfold ArxivCli.strip in H. rewrite H in Hw. by apply lstrip_head in Hw.
Qed.

Lemma strip_last text u c : strip text = u ++ [c] → isspace c = false.
Proof. apply rstrip_last. Qed.

Lemma strip_solid text :
  (∀ c v, text = c :: v → isspace c = false) →
  (∀ u c, text = u ++ [c] → isspace c = false) →
  strip text = text.
Proof.
  intros Hhead Hlast. unfold ArxivCli.strip.
  assert (lstrip text = text) as ->.
  { destruct text as [|c v]; [done |]. eapply lstrip_solid; eauto. }
  destruct (decide (text = [])) as [->|Hne]; [done |].
  destruct (exists_last Hne) as (u & c & ->).
  eapply rstrip_solid; eauto.
Qed.

(** The substitution leaves single spaces only. *)
Lemma sub_spaces_true_head text c v : sub_spaces true text = c :: v → isspace c = false.
Proof.
  induction text as [|c' text IH]; simpl; [done |].
  destruct (isspace c') eqn:Hc; [done |]. by intros [= <- _].
Qed.

Lemma sub_spaces_apart b text : Sorted apart (sub_spaces b text).
Proof.
  revert b. induction text as [|c text IH]; intros b; simpl; [constructor |].
  destruct (isspace c) eqn:Hc.
  - destruct b; [apply IH |]. constructor; [apply IH |].
    destruct (sub_spaces true text) as [|d v] eqn:Hd; constructor.
    intros _. by eapply sub_spaces_true_head.
  - constructor; [apply IH |].
    destruct (sub_spaces false text); constructor. congruence.
Qed.

Lemma sub_spaces_plain b text : Forall plain (sub_spaces b text).
Proof.
  revert b. induction text as [|c text IH]; intros b; simpl; [constructor |].
  destruct (isspace c) eqn:Hc.
  - destruct b; [apply IH |]. by constructor.
  - constructor; [congruence | apply IH].
Qed.

Lemma Sorted_app_inv {A} (R : A → A → Prop) (l1 l2 : list A) :
  Sorted R (l1 ++ l2) → Sorted R l1 ∧ Sorted R l2.
Proof.
  induction l1 as [|x l1 IH]; simpl; [by split; [constructor |] |].
  intros [Hs Hhd]%Sorted_inv. destruct (IH Hs) as [H1 H2].
  split; [| done]. constructor; [done |].
  destruct l1; [constructor |]. simpl in Hhd. apply HdRel_inv in Hhd. by constructor.
Qed.

Lemma Sorted_adjacent {A} (R : A → A → Prop) (u : list A) x y (v : list A) :
  Sorted R (u ++ x :: y :: v) → R x y.
Proof.
  intros [_ H]%Sorted_app_inv. apply Sorted_inv in H as [_ H]. by apply HdRel_inv in H.
Qed.

Lemma clean_text_tidy (text : option (list char)) :
  Sorted apart (clean_text text) ∧ Forall plain (clean_text text).
Proof.
  destruct text as [[|c text]|]; simpl; try (split; constructor).
  destruct (strip_infix (sub_spaces false (c :: text))) as (u & w & H & _ & _).
  pose proof (sub_spaces_apart false (c :: text)) as Ha.
  pose proof (sub_spaces_plain false (c :: text)) as Hp.
  rewrite H in Ha, Hp. split.
  - apply Sorted_app_inv in Ha as [_ Ha]. by apply Sorted_app_inv in Ha as [Ha _].
  - apply Forall_app in Hp as [_ Hp]. by apply Forall_app in Hp as [Hp _].
Qed.

Lemma clean_text_ends (text : option (list char)) :
  (∀ c v, clean_text text = c :: v → isspace c = false) ∧
  (∀ u c, clean_text text = u ++ [c] → isspace c = false).
Proof.
  destruct text as [[|c0 text]|]; simpl.
  - split; [done | by intros [|] ? ?].
  - split; [apply strip_head | apply strip_last].
  - split; [done | by intros [|] ? ?].
Qed.

(** X19: the cleaned text neither begins nor ends with white space. *)
Theorem clean_text_trimmed (text : option (list char)) :
  (∀ c v, clean_text text = c :: v → isspace c = false) ∧
  (∀ u c, clean_text text = u ++ [c] → isspace c = false).
Proof. apply clean_text_ends. Qed.

(** X20: in the cleaned text white space is the space character alone,
    and never two in a row. *)
Theorem clean_text_single_spaces (text : option (list char)) :
  (∀ c, c ∈ clean_text text → isspace c = true → c = space) ∧
  (∀ u c d v, clean_text text = u ++ c :: d :: v → isspace c = true → isspace d = false).
Proof.
  destruct (clean_text_tidy text) as [Ha Hp]. split.
  - intros c Hc. by apply (proj1 (Forall_forall _ _) Hp).
  - intros u c d v H. rewrite H in Ha. by apply Sorted_adjacent in Ha.
Qed.

(** Text that is tidy already is left as it is. *)
Lemma sub_spaces_tidy b text :
  Sorted apart text → Forall plain text →
  (b = true → ∀ c v, text = c :: v → isspace c = false) →
  sub_spaces b text = text.
Proof.
  revert b. induction text as [|c text IH]; intros b Ha Hp Hb; simpl; [done |].
  apply Sorted_inv in Ha as [Ha Hhd]. apply Forall_cons in Hp as [Hc Hp].
  destruct (isspace c) eqn:Hsp.
  - destruct b; [by rewrite (Hb eq_refl c text) in Hsp |].
    rewrite Hc by done. f_equal. apply IH; [done | done |].
    intros _ d v ->. apply HdRel_inv in Hhd. by apply Hhd.
  - f_equal. by apply IH.
Qed.

(** X21: cleaning is idempotent. *)
Theorem clean_text_idempotent (text : option (list char)) :
  clean_text (Some (clean_text text)) = clean_text text.
Proof.
  destruct (clean_text_tidy text) as [Ha Hp].
  destruct (clean_text_ends text) as [Hhead Hlast].
  destruct (clean_text text) as [|c v] eqn:H; [done |].
  cbn [ArxivCli.clean_text]. rewrite sub_spaces_tidy by done.
  by apply strip_solid.
Qed.

Lemma filter_solid_blank text : Forall blank text → filter solid text = [].
Proof.
  induction 1 as [|c text Hc _ IH]; [done |].
  rewrite filter_cons, decide_False; [done | congruence].
Qed.

Lemma filter_solid_lstrip text : filter solid (lstrip text) = filter solid text.
Proof.
  destruct (lstrip_suffix text) as (u & Hu & Hblank).
  rewrite Hu at 2. by rewrite filter_app, (filter_solid_blank u).
Qed.

Lemma filter_solid_strip text : filter solid (strip text) = filter solid text.
Proof.
  destruct (strip_infix text) as (u & w & H & Hu & Hw).
  rewrite H at 2.
  rewrite !filter_app, (filter_solid_blank u), (filter_solid_blank w) by done.
  by rewrite app_nil_r.
Qed.

Section SpaceIsBlank.
Hypothesis isspace_space : isspace space = true.

Lemma filter_solid_sub_spaces b text :
  filter solid (sub_spaces b text) = filter solid text.
Proof.
  revert b. induction text as [|c text IH]; intros b; simpl; [done |].
  destruct (isspace c) eqn:Hc.
  - rewrite (filter_cons _ c), decide_False by congruence.
    destruct b; [apply IH |].
    rewrite filter_cons, decide_False by congruence. apply IH.
  - rewrite !filter_cons, !decide_True by done. f_equal. apply IH.
Qed.

Lemma filter_solid_clean_text text :
  filter solid (clean_text (Some text)) = filter solid text.
Proof.
  destruct text as [|c text]; [done |]. cbn [ArxivCli.clean_text].
  by rewrite filter_solid_strip, filter_solid_sub_spaces.
Qed.

(** X22: cleaning keeps the characters that are not white space, all of
    them and in their order. *)
Theorem clean_text_keeps_solid text :
  filter (λ c, isspace c = false) (clean_text (Some text)) =
    filter (λ c, isspace c = false) text.
Proof. apply filter_solid_clean_text. Qed.

(** X23: the cleaned text is empty exactly when the text is missing or
    all white space. *)
Theorem clean_text_empty_iff (text : option (list char)) :
  clean_text text = [] ↔ Forall (λ c, isspace c = true) (default [] text).
Proof.
  destruct text as [text|]; [| done].
  change (default [] (Some text)) with text. split.
  - intros H. pose proof (filter_solid_clean_text text) as Hf. rewrite H in Hf.
    apply Forall_forall. intros c Hc.
    destruct (isspace c) eqn:Hsp; [done |].
    assert (c ∈ filter solid text) as Hin by (by apply list_elem_of_filter).
    rewrite <- Hf in Hin. by apply elem_of_nil in Hin.
  - intros Hblank.
    destruct (clean_text (Some text)) as [|c v] eqn:H; [done |].
    destruct (clean_text_ends (Some text)) as [Hhead _].
    pose proof (filter_solid_clean_text text) as Hf.
    rewrite (filter_solid_blank text) in Hf by done.
    rewrite H, filter_cons, decide_True in Hf by (by apply (Hhead c v)).
    done.
Qed.
End SpaceIsBlank.
End CleanTextFacts.

(** ** Facts about [split] and the paper identifier *)

Section SplitFacts.
Context {char : Type} `{EqDecision char}.
Implicit Types (sep s u v piece : list char).

Lemma starts_with_spec sep s : starts_with sep s = true ↔ ∃ v, s = sep ++ v.
Proof.
  revert s. induction sep as [|x sep IH]; intros s; simpl.
  - split; [by exists s | done].
  - destruct s as [|c s]; [split; [done | by intros [? ?]] |].
    rewrite andb_true_iff, bool_decide_eq_true, IH. split.
    + intros [-> [v ->]]. by exists v.
    + intros [v [= -> ->]]. split; [done | by exists v].
Qed.

Lemma occurs_spec sep s : occurs sep s = true ↔ ∃ u v, s = u ++ sep ++ v.
Proof.
  induction s as [|c s IH]; simpl.
  - rewrite orb_false_r, starts_with_spec. split.
    + intros [v Hv]. by exists [], v.
    + intros (u & v & Huv). destruct u; [by exists v |]. done.
  - rewrite orb_true_iff, starts_with_spec, IH. split.
    + intros [[v Hv]|(u & v & ->)]; [by exists [], v | by exists (c :: u), v].
    + intros ([|c' u] & v & Huv); [left; by exists v |].
      injection Huv as -> ->. right. by exists u, v.
Qed.

Lemma starts_with_app_short sep u v :
  starts_with sep (u ++ v) = true → (length sep ≤ length u)%nat →
  starts_with sep u = true.
Proof.
  revert u. induction sep as [|x sep IH]; intros u; simpl; [done |].
  destruct u as [|c u]; simpl; [lia |].
  rewrite !andb_true_iff. intros [Hx Hs] Hlen. split; [done |]. apply IH; [done | lia].
Qed.

Lemma split_from_skip sep u piece s :
  split_from sep (length u) piece (u ++ s) = split_from sep 0 piece s.
Proof. induction u as [|c u IH]; [done | apply IH]. Qed.

Lemma split_from_nonempty sep skip piece s : split_from sep skip piece s ≠ [].
Proof.
  revert skip piece. induction s as [|c s IH]; intros skip piece; simpl; [done |].
  destruct skip; [| apply IH]. by destruct (starts_with sep (c :: s)).
Qed.

(** No separator: one piece, the text itself. *)
Lemma split_from_absent sep piece s :
  occurs sep s = false → split_from sep 0 piece s = [reverse piece ++ s].
Proof.
  revert piece. induction s as [|c s IH]; intros piece; simpl.
  - intros _. by rewrite app_nil_r.
  - intros [Hhere Hlater]%orb_false_iff. rewrite Hhere, IH by done.
    by rewrite reverse_cons, <- app_assoc.
Qed.

Lemma split_from_here sep piece v :
  sep ≠ [] → split_from sep 0 piece (sep ++ v) = reverse piece :: split_from sep 0 [] v.
Proof.
  destruct sep as [|x sep']; [done |]. intros _.
  assert (starts_with (x :: sep') ((x :: sep') ++ v) = true) as Hhere
    by (apply starts_with_spec; by exists v).
  rewrite <- app_comm_cons in *. cbn [split_from]. rewrite Hhere. f_equal.
  apply split_from_skip.
Qed.

Lemma split_from_step sep piece c s :
  starts_with sep (c :: s) = false →
  split_from sep 0 piece (c :: s) = split_from sep 0 (c :: piece) s.
Proof. intros H. cbn [split_from]. by rewrite H. Qed.

Lemma occurs_cons sep c s :
  occurs sep (c :: s) = starts_with sep (c :: s) || occurs sep s.
Proof. done. Qed.

Lemma split_from_first_snoc r z piece u v :
  occurs (r ++ [z]) (u ++ r) = false →
  split_from (r ++ [z]) 0 piece (u ++ (r ++ [z]) ++ v) =
    (reverse piece ++ u) :: split_from (r ++ [z]) 0 [] v.
Proof.
  revert piece. induction u as [|c u IH]; intros piece Hfirst.
  - rewrite app_nil_r, app_nil_l. apply split_from_here. by destruct r.
  - rewrite <- app_comm_cons, occurs_cons in Hfirst.
    apply orb_false_iff in Hfirst as [Hhere Hlater].
    assert (starts_with (r ++ [z]) (c :: u ++ (r ++ [z]) ++ v) = false) as Hnot.
    { destruct (starts_with (r ++ [z]) (c :: u ++ (r ++ [z]) ++ v)) eqn:Hs; [| done].
      rewrite <- Hhere. symmetry.
      apply (starts_with_app_short _ (c :: u ++ r) ([z] ++ v)).
      - rewrite <- Hs. f_equal. rewrite <- !app_comm_cons. f_equal.
        by rewrite <- !app_assoc.
      - simpl. rewrite !length_app. simpl. lia. }
    rewrite <- app_comm_cons, split_from_step, IH by done.
    by rewrite reverse_cons, <- app_assoc.
Qed.

(** The first separator ends the first piece, and the rest is split on
    its own. *)
Lemma split_from_first sep piece u v :
  occurs sep (u ++ removelast sep) = false →
  split_from sep 0 piece (u ++ sep ++ v) = (reverse piece ++ u) :: split_from sep 0 [] v.
Proof.
  destruct (decide (sep = [])) as [->|Hne]; [by destruct u |].
  destruct (exists_last Hne) as (r & z & ->).
  rewrite removelast_last. apply split_from_first_snoc.
Qed.

Lemma last_piece_absent sep s : occurs sep s = false → last_piece sep s = s.
Proof. intros H. unfold last_piece, split. by rewrite split_from_absent. Qed.

Lemma last_piece_first sep u v :
  occurs sep (u ++ removelast sep) = false →
  last_piece sep (u ++ sep ++ v) = last_piece sep v.
Proof.
  intros H. unfold last_piece, split. rewrite split_from_first by done.
  pose proof (split_from_nonempty sep 0 [] v) as Hne.
  destruct (split_from sep 0 [] v); [done |]. by rewrite last_cons_cons.
Qed.
End SplitFacts.

Lemma list_ascii_of_string_app (s1 s2 : string) :
  list_ascii_of_string (s1 +:+ s2) = list_ascii_of_string s1 ++ list_ascii_of_string s2.
Proof. induction s1 as [|c s1 IH]; simpl; [done | by rewrite IH]. Qed.

(** X24: an [atom:id] text without "/abs/" is the identifier as it
    stands. *)
Theorem paper_id_without_abs (id_text : string) :
  contains "/abs/" id_text = false → paper_id id_text = id_text.
Proof.
  intros H. unfold paper_id. rewrite last_piece_absent by done.
  apply string_of_list_ascii_of_string.
Qed.

(** X25: up to the first "/abs/" the text is dropped, and what follows is
    read in the same way. *)
Theorem paper_id_drops_first_abs (base rest : string) :
  contains "/abs/" (base +:+ "/abs") = false →
  paper_id (base +:+ "/abs/" +:+ rest) = paper_id rest.
Proof.
  intros Hbase. unfold paper_id. rewrite !list_ascii_of_string_app. f_equal.
  apply last_piece_first. unfold contains in Hbase.
  by rewrite list_ascii_of_string_app in Hbase.
Qed.

(** X26: for the [atom:id] that arXiv gives, "http://arxiv.org/abs/"
    followed by an identifier without "/abs/", the paper gets that
    identifier, and its two addresses are the https page and the PDF of
    that identifier. *)
Theorem urls_of_arxiv_entry (rest : string) :
  contains "/abs/" rest = false →
  paper_id ("http://arxiv.org/abs/" +:+ rest) = rest ∧
  arxiv_url (paper_id ("http://arxiv.org/abs/" +:+ rest)) = "https://arxiv.org/abs/" +:+ rest ∧
  pdf_url (paper_id ("http://arxiv.org/abs/" +:+ rest)) =
    "https://arxiv.org/pdf/" +:+ rest +:+ ".pdf".
Proof.
  intros Hrest.
  assert (paper_id ("http://arxiv.org/abs/" +:+ rest) = rest) as ->; [| done].
  unfold paper_id.
  change (list_ascii_of_string ("http://arxiv.org/abs/" +:+ rest))
    with (list_ascii_of_string "http://arxiv.org" ++
          list_ascii_of_string "/abs/" ++ list_ascii_of_string rest).
  rewrite last_piece_first by reflexivity.
  rewrite last_piece_absent by done. apply string_of_list_ascii_of_string.
Qed.

(** ** The further facts on concrete worlds *)

Section MoreRuns.
Import Scenario TextScenario.

Local Abbreviation fetch_papers_now f := (Main.fetch_papers_now World f clock http_str).
Local Abbreviation periodic_fetch f := (Main.periodic_fetch World f clock http_str).
Local Abbreviation after_cycle f := (Main.after_cycle World f clock http_str).
Local Abbreviation handle f := (Main.handle World f clock http_str starlette).
Local Abbreviation handle_all f := (Main.handle_all World f clock http_str starlette).

Local Abbreviation cross_listed_paper := (paper "2401.00001v1" "A cross-listed paper" 5).

Lemma cycle_seen_ids_exact_witness :
  load_seen_ids (storage (after_cycle retitled Manual only_cv)) =
    load_seen_ids (storage only_cv) ∪ list_to_set (Paper.id <$> retitled_papers "cs.CV" 0).
Proof.
  apply (cycle_seen_ids_exact retitled clock http_str Manual only_cv
           (retitled_papers "cs.CV" 0) (with_world [("cs.CV", 2)] only_cv)).
  reflexivity.
Defined.

Lemma cycle_counts_witness :
  ∃ st, load_status (storage (after_cycle cross_listed Scheduled fresh)) = Some st ∧
    FetchStatus.status st = "success" ∧
    FetchStatus.papers_found st = 3 ∧
    FetchStatus.new_papers st =
      Z.of_nat (size (list_to_set (Paper.id <$> replicate 3 cross_listed_paper)
                      ∖ load_seen_ids (storage fresh))) ∧
    0 ≤ FetchStatus.new_papers st ≤ FetchStatus.papers_found st.
Proof.
  apply (cycle_counts cross_listed clock http_str Scheduled fresh
           (replicate 3 cross_listed_paper)
           (with_world [("cs.CV", 50); ("cs.LG", 50); ("cs.AI", 50)] fresh)).
  reflexivity.
Defined.

Lemma cycle_flag_rule_witness :
  ∃ q, dict_get "2401.00001v1" (load_papers (storage (after_cycle cross_listed Manual fresh)))
       = Some q ∧
    same_but_is_new q cross_listed_paper ∧
    (Paper.is_new q = true ↔
       ("2401.00001v1" ∉ load_seen_ids (storage fresh)) ∧
       ("2401.00001v1" ∉ Paper.id <$> replicate 2 cross_listed_paper)).
Proof.
  apply (cycle_flag_rule cross_listed clock http_str Manual fresh
           (replicate 2 cross_listed_paper) cross_listed_paper []
           (with_world [("cs.CV", 50); ("cs.LG", 50); ("cs.AI", 50)] fresh)).
  - reflexivity.
  - apply not_elem_of_nil.
Defined.

Lemma cycle_stored_ids_witness :
  "cs.CV/1" ∈ dict_keys (load_papers (storage (after_cycle retitled Manual only_cv))) ↔
  "cs.CV/1" ∈ dict_keys (load_papers (storage only_cv)) ∨
  "cs.CV/1" ∈ Paper.id <$> retitled_papers "cs.CV" 0.
Proof.
  apply (cycle_stored_ids retitled clock http_str Manual only_cv
           (retitled_papers "cs.CV" 0) (with_world [("cs.CV", 2)] only_cv)).
  reflexivity.
Defined.

Lemma papers_wf_invariant_witness :
  papers_wf (load_papers (storage only_cv)) ∧
  papers_wf (load_papers (storage (handle retitled FetchPapersNow only_cv))).
Proof.
  assert (papers_wf (load_papers (storage only_cv))) as Hwf.
  { split; [apply NoDup_nil_2 | apply Forall_nil_2]. }
  split; [exact Hwf |].
  exact (papers_wf_invariant retitled clock http_str starlette FetchPapersNow only_cv Hwf).
Defined.

Lemma stored_ids_seen_invariant_witness :
  stored_ids_seen (storage only_cv) ∧
  stored_ids_seen
    (storage (Main.handle World retitled clock http_str AttributeDict (PeriodicFetch 2) only_cv)).
Proof.
  assert (stored_ids_seen (storage only_cv)) as Hseen.
  { intros k Hk. by apply elem_of_nil in Hk. }
  split; [exact Hseen |].
  exact (stored_ids_seen_invariant retitled clock http_str AttributeDict (PeriodicFetch 2)
           only_cv Hseen).
Defined.

Lemma toggle_off_stops_loop_witness :
  fst (toggle_auto_fetch World fresh) = Return false ∧
  snd (periodic_fetch retitled starlette 3 (snd (toggle_auto_fetch World fresh))) =
    snd (toggle_auto_fetch World fresh) ∧
  periodic_fetch retitled AttributeDict 3 (snd (toggle_auto_fetch World fresh)) =
    (Return tt, snd (toggle_auto_fetch World fresh)).
Proof.
  apply (toggle_off_stops_loop retitled clock http_str starlette 3 fresh). reflexivity.
Defined.

Lemma toggle_twice_witness :
  fst (toggle_auto_fetch World fresh) = Return (negb (auto_fetch_enabled fresh)) ∧
  storage (snd (toggle_auto_fetch World fresh)) = storage fresh ∧
  fetch_task (snd (toggle_auto_fetch World fresh)) = true ∧
  snd (toggle_auto_fetch World (snd (toggle_auto_fetch World fresh))) = fresh.
Proof. apply (toggle_twice fresh). reflexivity. Defined.

Lemma refetch_after_mark_all_seen_witness :
  fst (fetch_papers_now retitled
         (snd (mark_all_seen World (after_cycle retitled Manual only_cv)))) =
    Return (mkFetchResponse "success" 2 0).
Proof.
  apply (refetch_after_mark_all_seen retitled clock http_str
           (after_cycle retitled Manual only_cv) (retitled_papers "cs.CV" 1)
           (with_world [("cs.CV", 2); ("cs.CV", 2)]
              (snd (mark_all_seen World (after_cycle retitled Manual only_cv))))).
  - vm_compute. reflexivity.
  - intros p Hp. apply elem_of_cons in Hp as [->|Hp];
      [| apply list_elem_of_singleton in Hp as ->];
      apply (bool_decide_unpack _); vm_compute; exact I.
Defined.

Lemma cycle_with_nothing_enabled_witness :
  let a := with_storage (save_config [CategoryConfig.mk "cs.CV" false 2]) fresh in
  fst (fetch_papers_now retitled a) = Return (mkFetchResponse "success" 0 0) ∧
  world (after_cycle retitled Scheduled a) = world a ∧
  load_papers (storage (after_cycle retitled Scheduled a)) = load_papers (storage a) ∧
  load_seen_ids (storage (after_cycle retitled Scheduled a)) = load_seen_ids (storage a) ∧
  load_status (storage (after_cycle retitled Scheduled a)) =
    Some (success_status (clock (world a)) 0 0).
Proof.
  apply (cycle_with_nothing_enabled retitled clock http_str Scheduled
           (with_storage (save_config [CategoryConfig.mk "cs.CV" false 2]) fresh)).
  repeat constructor.
Defined.

Lemma config_only_changed_by_update_witness :
  load_config (storage (handle retitled ClearAllData only_cv)) = load_config (storage only_cv).
Proof.
  apply (config_only_changed_by_update retitled clock http_str starlette ClearAllData only_cv).
  discriminate.
Defined.

Lemma clean_text_trimmed_witness :
  isspace "a" = false ∧ isspace "b" = false.
Proof.
  split.
  - apply (proj1 (clean_text_trimmed isspace " "%char (Some (chars "  a  b "))) "a"%char
             (chars " b")).
    reflexivity.
  - apply (proj2 (clean_text_trimmed isspace " "%char (Some (chars "  a  b "))) (chars "a ")
             "b"%char).
    reflexivity.
Defined.

Lemma clean_text_single_spaces_witness :
  isspace "b" = false.
Proof.
  apply (proj2 (clean_text_single_spaces isspace " "%char (Some (chars "  a  b ")))
           (chars "a") " "%char "b"%char []); reflexivity.
Defined.

Lemma clean_text_keeps_solid_witness :
  filter (λ c, isspace c = false) (clean_text isspace " "%char (Some (chars "  a  b "))) =
    filter (λ c, isspace c = false) (chars "  a  b ").
Proof. apply (clean_text_keeps_solid isspace " "%char). reflexivity. Defined.

Lemma clean_text_empty_iff_witness :
  clean_text isspace " "%char (Some (chars "   ")) = [] ↔
    Forall (λ c, isspace c = true) (default [] (Some (chars "   "))).
Proof. apply (clean_text_empty_iff isspace " "%char). reflexivity. Defined.

Lemma paper_id_without_abs_witness :
  contains "/abs/" "hep-th/9901001v2" = false ∧ paper_id "hep-th/9901001v2" = "hep-th/9901001v2".
Proof. split; [reflexivity | apply paper_id_without_abs; reflexivity]. Defined.

Lemma paper_id_drops_first_abs_witness :
  paper_id ("http://arxiv.org" +:+ "/abs/" +:+ "old/abs/2401.00001v1") =
    paper_id "old/abs/2401.00001v1".
Proof.
  apply (paper_id_drops_first_abs "http://arxiv.org" "old/abs/2401.00001v1"). reflexivity.
Defined.

Lemma urls_of_arxiv_entry_witness :
  paper_id ("http://arxiv.org/abs/" +:+ "2401.00001v1") = "2401.00001v1" ∧
  arxiv_url (paper_id ("http://arxiv.org/abs/" +:+ "2401.00001v1")) =
    "https://arxiv.org/abs/" +:+ "2401.00001v1" ∧
  pdf_url (paper_id ("http://arxiv.org/abs/" +:+ "2401.00001v1")) =
    "https://arxiv.org/pdf/" +:+ "2401.00001v1" +:+ ".pdf".
Proof. apply (urls_of_arxiv_entry "2401.00001v1"). reflexivity. Defined.
End MoreRuns.
